(** * spotspot: a terminal music player (src/spotspot/cli.py)

    A shallow embedding of [MusicPlayer], of the keyboard dispatcher and of
    the playlist loop of [main], followed by the properties of the
    specification that are stated about them.

    Python [float]s are IEEE 754 binary64 numbers: they are modelled by
    Rocq's primitive floats, whose operations are specified by
    [SpecFloat].  Python [int]s are [Z].  The collaborators the program
    calls (the system clock, mutagen, pygame's mixer, the terminal) are a
    [world] the definitions are parameterised by, and the calls made to
    them are recorded in a trace of [effect]s. *)

From Stdlib Require Import ZArith List String Ascii Bool Lia Zpower.
From Stdlib Require Import Floats DecimalString QArith Qpower.
Import ListNotations.

Local Open Scope string_scope.
Local Open Scope Z_scope.

(** ** Python values *)

Module Py.

(** The exceptions the program can meet. [SystemExit] is what
    [sys.exit] raises; [PygameError] is [pygame.error]; [TypeError] is
    what [os.path.basename(None)] raises. *)
Inductive exn :=
| PygameError (msg : string)
| MutagenError (msg : string)
| ValueError
| OverflowError
| TypeError
| SystemExit (code : Z).

(** Float literals of the source, written in hexadecimal so that the
    binary64 value is explicit. *)
Definition f0 : float := 0%float.
Definition f1 : float := 1%float.
Definition f0_1 : float := 0x1.999999999999ap-4%float.   (* 0.1 *)
Definition f0_5 : float := 0x1p-1%float.                 (* 0.5 *)
Definition f30 : float := 30%float.
Definition f100 : float := 100%float.

(** [min(a, b)]: the first argument is kept unless the second is
    strictly smaller. *)
Definition min2 (a b : float) : float := if (b <? a)%float then b else a.

(** [max(a, b)]: the first argument is kept unless the second is
    strictly greater. *)
Definition max2 (a b : float) : float := if (a <? b)%float then b else a.

(** [int(x)] on a float: truncation toward zero; [nan] raises
    [ValueError] and an infinity raises [OverflowError]. *)
Definition int_of_spec (x : spec_float) : exn + Z :=
  match x with
  | S754_nan => inl ValueError
  | S754_infinity _ => inl OverflowError
  | S754_zero _ => inr 0
  | S754_finite s m e => inr (cond_Zopp s (Z.shiftl (Zpos m) e))
  end.

Definition int (x : float) : exn + Z := int_of_spec (Prim2SF x).

(** [str(n)] for an [int]. *)
Definition str_int (n : Z) : string := NilZero.string_of_int (Z.to_int n).

(** ["%02d" % n] *)
Definition fmt_02d (n : Z) : string :=
  if (0 <=? n) && (n <? 10) then "0" ++ str_int n else str_int n.

(** [s.split(".")[0]]: the part of [s] before its first dot. *)
Fixpoint split_dot_head (s : string) : string :=
  match s with
  | EmptyString => EmptyString
  | String c rest =>
      if Ascii.eqb c "."%char then EmptyString
      else String c (split_dot_head rest)
  end.

(** [str(timedelta(seconds=n))] for an [int] [n]: the constructor
    normalises to days and seconds of the day and refuses more than
    999999999 days; [__str__] prints [H:MM:SS] with an unpadded hour
    field, preceded by the days when there are any. *)
Definition str_timedelta_seconds (n : Z) : exn + string :=
  let days := n / 86400 in
  let seconds := n mod 86400 in
  if 999999999 <? Z.abs days then inl OverflowError
  else
    let mm := seconds / 60 in
    let ss := seconds mod 60 in
    let hh := mm / 60 in
    let mm := mm mod 60 in
    let s := str_int hh ++ ":" ++ fmt_02d mm ++ ":" ++ fmt_02d ss in
    inr (if days =? 0 then s
         else str_int days ++ " day"
              ++ (if Z.abs days =? 1 then "" else "s") ++ ", " ++ s).

(** [os.path.basename]: what follows the last slash. *)
Fixpoint basename_from (acc s : string) : string :=
  match s with
  | EmptyString => acc
  | String c rest =>
      if Ascii.eqb c "/"%char then basename_from rest rest
      else basename_from acc rest
  end.

Definition basename (s : string) : string := basename_from s s.

End Py.

(** ** The collaborators *)

(** What [mutagen.File(path)] does: it raises [MutagenError] when the
    file cannot be read as the type it was detected as, returns a falsy
    value ([None] when no type is detected), or returns a truthy object
    that has an [info.length]. *)
Inductive file_result :=
| FileRaises (msg : string)
| FileFalsy
| FileInfo (length : float).

(** What the program reads from outside.
    - [clock n] is the value of the [n]-th call to [time.time()];
    - [init_error] is [Some msg] when [pygame.mixer.init()] raises
      [pygame.error] with message [msg];
    - [mutagen_file path] is what [File(path)] does;
    - [load_error path] and [play_error path] are [Some msg] when
      [pygame.mixer.music.load(path)], respectively the [play()] that
      follows it, raises [pygame.error] with message [msg]. *)
Record world := {
  clock : nat -> float;
  init_error : option string;
  mutagen_file : string -> file_result;
  load_error : string -> option string;
  play_error : string -> option string
}.

(** The length mutagen reads for [path]: [Some l] when [File(path)]
    returns a truthy object whose [info.length] is [l]. *)
Definition mutagen_length (W : world) (path : string) : option float :=
  match mutagen_file W path with
  | FileInfo length => Some length
  | _ => None
  end.

(** The second line of a frame, field by field: [percentage], the
    cells of the bar (Unicode code points), the two times, the volume
    in percent and the pause flag that selects the last glyph. *)
Record progress_text := {
  pt_percentage : Z;
  pt_bar : list N;
  pt_current_time : string;
  pt_total_time : string;
  pt_volume : Z;
  pt_paused : bool
}.

(** What the program does to the outside: calls to pygame's mixer and
    lines sent to the terminal. *)
Inductive effect :=
| MixerInit
| MixerSetVolume (v : float)
| MixerLoad (path : string)
| MixerPlay
| MixerPause
| MixerUnpause
| MixerStop
| Echo (line : string)            (* click.echo(line) *)
| EchoErr (line : string)         (* click.echo(line, err=True) *)
| CursorUpClear                   (* click.echo("\033[3F\033[J", nl=False) *)
| TrackName (name : string)       (* click.secho(name, ..., bold=True) *)
| ProgressLine (t : progress_text).

(** ** The player *)

Record MusicPlayer := {
  current_track : option string;
  playing : bool;
  current_volume : float;
  paused : bool;
  duration : float;
  start_time : float;
  pause_start : float;
  total_pause_time : float;
  pause_position : float;
  first_display : bool
}.

Definition set_current_track (v : option string) (p : MusicPlayer) :=
  {| current_track := v; playing := playing p;
     current_volume := current_volume p; paused := paused p;
     duration := duration p; start_time := start_time p;
     pause_start := pause_start p; total_pause_time := total_pause_time p;
     pause_position := pause_position p; first_display := first_display p |}.

Definition set_playing (v : bool) (p : MusicPlayer) :=
  {| current_track := current_track p; playing := v;
     current_volume := current_volume p; paused := paused p;
     duration := duration p; start_time := start_time p;
     pause_start := pause_start p; total_pause_time := total_pause_time p;
     pause_position := pause_position p; first_display := first_display p |}.

Definition set_current_volume (v : float) (p : MusicPlayer) :=
  {| current_track := current_track p; playing := playing p;
     current_volume := v; paused := paused p;
     duration := duration p; start_time := start_time p;
     pause_start := pause_start p; total_pause_time := total_pause_time p;
     pause_position := pause_position p; first_display := first_display p |}.

Definition set_paused (v : bool) (p : MusicPlayer) :=
  {| current_track := current_track p; playing := playing p;
     current_volume := current_volume p; paused := v;
     duration := duration p; start_time := start_time p;
     pause_start := pause_start p; total_pause_time := total_pause_time p;
     pause_position := pause_position p; first_display := first_display p |}.

Definition set_duration (v : float) (p : MusicPlayer) :=
  {| current_track := current_track p; playing := playing p;
     current_volume := current_volume p; paused := paused p;
     duration := v; start_time := start_time p;
     pause_start := pause_start p; total_pause_time := total_pause_time p;
     pause_position := pause_position p; first_display := first_display p |}.

Definition set_start_time (v : float) (p : MusicPlayer) :=
  {| current_track := current_track p; playing := playing p;
     current_volume := current_volume p; paused := paused p;
     duration := duration p; start_time := v;
     pause_start := pause_start p; total_pause_time := total_pause_time p;
     pause_position := pause_position p; first_display := first_display p |}.

Definition set_pause_start (v : float) (p : MusicPlayer) :=
  {| current_track := current_track p; playing := playing p;
     current_volume := current_volume p; paused := paused p;
     duration := duration p; start_time := start_time p;
     pause_start := v; total_pause_time := total_pause_time p;
     pause_position := pause_position p; first_display := first_display p |}.

Definition set_total_pause_time (v : float) (p : MusicPlayer) :=
  {| current_track := current_track p; playing := playing p;
     current_volume := current_volume p; paused := paused p;
     duration := duration p; start_time := start_time p;
     pause_start := pause_start p; total_pause_time := v;
     pause_position := pause_position p; first_display := first_display p |}.

Definition set_pause_position (v : float) (p : MusicPlayer) :=
  {| current_track := current_track p; playing := playing p;
     current_volume := current_volume p; paused := paused p;
     duration := duration p; start_time := start_time p;
     pause_start := pause_start p; total_pause_time := total_pause_time p;
     pause_position := v; first_display := first_display p |}.

Definition set_first_display (v : bool) (p : MusicPlayer) :=
  {| current_track := current_track p; playing := playing p;
     current_volume := current_volume p; paused := paused p;
     duration := duration p; start_time := start_time p;
     pause_start := pause_start p; total_pause_time := total_pause_time p;
     pause_position := pause_position p; first_display := v |}.

(** ** Running the program: state, exceptions, trace *)

(** The state a method runs in: the player object, the number of clock
    readings taken so far, and the effects produced so far (oldest
    first). *)
Record machine := {
  self : MusicPlayer;
  clock_reads : nat;
  trace : list effect
}.

(** A call either returns a value or raises; both leave a state. *)
Inductive outcome (A : Type) :=
| Ok (a : A) (m : machine)
| Raise (e : Py.exn) (m : machine).

Arguments Ok {A} a m.
Arguments Raise {A} e m.

Definition final {A} (o : outcome A) : machine :=
  match o with Ok _ m => m | Raise _ m => m end.

Definition M (A : Type) : Type := machine -> outcome A.

Definition ret {A} (a : A) : M A := fun m => Ok a m.

Definition bind {A B} (c : M A) (k : A -> M B) : M B :=
  fun m => match c m with
           | Ok a m' => k a m'
           | Raise e m' => Raise e m'
           end.

Definition raise {A} (e : Py.exn) : M A := fun m => Raise e m.

(** [try: body except pygame.error as e: handler e] *)
Definition try_except_pygame {A} (body : M A) (handler : string -> M A) : M A :=
  fun m => match body m with
           | Raise (Py.PygameError msg) m' => handler msg m'
           | o => o
           end.

Definition lift {A} (r : Py.exn + A) : M A :=
  match r with inl e => raise e | inr a => ret a end.

Definition get_self : M MusicPlayer := fun m => Ok (self m) m.

Definition update (f : MusicPlayer -> MusicPlayer) : M unit :=
  fun m => Ok tt {| self := f (self m); clock_reads := clock_reads m;
                    trace := trace m |}.

Definition emit (e : effect) : M unit :=
  fun m => Ok tt {| self := self m; clock_reads := clock_reads m;
                    trace := (trace m ++ [e])%list |}.

Declare Scope py_scope.
Delimit Scope py_scope with py.
Notation "x <- c ;; k" := (bind c (fun x => k))
  (at level 61, c at next level, right associativity) : py_scope.
Notation "c ;; k" := (bind c (fun _ => k))
  (at level 61, right associativity) : py_scope.
Local Open Scope py_scope.

(** ** [MusicPlayer]'s methods *)

(** The three strings the bar is built from. The cells before the head
    and the cells after it are the same character in the source. *)
Definition solid_glyph : N := 0x2501%N.   (* "━" in [bar = "━" * filled] *)
Definition head_glyph : N := 0x257A%N.    (* "╺" *)
Definition empty_glyph : N := 0x2501%N.   (* "━" * (width - filled - 1) *)

(** [s * n] for a one-character string [s]: empty when [n <= 0]. *)
Definition glyphs (g : N) (n : Z) : list N := repeat g (Z.to_nat n).

(** Lines 91-97: the bar for a given [progress]. *)
Definition progress_bar (progress : float) : Py.exn + list N :=
  let width := 30 in
  match Py.int (Py.f30 * progress) with
  | inl e => inl e
  | inr filled =>
      let bar := glyphs solid_glyph filled in
      inr (if filled <? width
           then (bar ++ [head_glyph]
                     ++ glyphs empty_glyph (width - filled - 1))%list
           else bar)
  end.

(** Lines 75-76: [str(timedelta(seconds=int(x))).split(".")[0]]. *)
Definition format_time (x : float) : Py.exn + string :=
  match Py.int x with
  | inl e => inl e
  | inr n =>
      match Py.str_timedelta_seconds n with
      | inl e => inl e
      | inr s => inr (Py.split_dot_head s)
      end
  end.

Section Player.

Variable W : world.

Definition time_time : M float :=
  fun m => Ok (clock W (clock_reads m))
              {| self := self m; clock_reads := S (clock_reads m);
                 trace := trace m |}.

(** [File(file_path)], as line 33 reads it: the [info.length] of a
    truthy result. The exception is [mutagen.MutagenError]. *)
Definition mutagen_File (file_path : string) : M (option float) :=
  match mutagen_file W file_path with
  | FileRaises msg => raise (Py.MutagenError msg)
  | FileFalsy => ret None
  | FileInfo length => ret (Some length)
  end.

(** [pygame.mixer.music.load(file_path)] *)
Definition mixer_music_load (file_path : string) : M unit :=
  match load_error W file_path with
  | Some msg => raise (Py.PygameError msg)
  | None => emit (MixerLoad file_path)
  end.

(** [pygame.mixer.music.play()], the track loaded being [file_path] *)
Definition mixer_music_play (file_path : string) : M unit :=
  match play_error W file_path with
  | Some msg => raise (Py.PygameError msg)
  | None => emit MixerPlay
  end.

Definition init_player : MusicPlayer :=
  {| current_track := None; playing := false; current_volume := Py.f0_5;
     paused := false; duration := Py.f0; start_time := Py.f0;
     pause_start := Py.f0; total_pause_time := Py.f0;
     pause_position := Py.f0; first_display := true |}.

(** [MusicPlayer.__init__]: the state it builds and the two mixer calls
    it makes. *)
Definition MusicPlayer_init : machine :=
  {| self := init_player; clock_reads := O;
     trace := [MixerInit; MixerSetVolume (current_volume init_player)] |}.

Definition get_current_position : M float :=
  s <- get_self ;;
  if negb (playing s) then ret Py.f0
  else if paused s then ret (pause_position s)
  else
    now <- time_time ;;
    ret (now - start_time s - total_pause_time s)%float.

Definition display_progress_bar (position : float) : M unit :=
  s <- get_self ;;
  if (duration s <=? Py.f0)%float then ret tt
  else
    let progress := Py.min2 (position / duration s)%float Py.f1 in
    percentage <- lift (Py.int (progress * Py.f100)%float) ;;
    current_time <- lift (format_time position) ;;
    total_time <- lift (format_time (duration s)) ;;
    (if negb (first_display s) then emit CursorUpClear
     else update (set_first_display false) ;; emit (Echo "")) ;;
    track <- get_self ;;
    name <- lift (match current_track track with
                  | Some path => inr (Py.basename path)
                  | None => inl Py.TypeError
                  end) ;;
    emit (TrackName name) ;;
    bar <- lift (progress_bar progress) ;;
    volume <- lift (Py.int (current_volume s * Py.f100)%float) ;;
    emit (ProgressLine {| pt_percentage := percentage; pt_bar := bar;
                          pt_current_time := current_time;
                          pt_total_time := total_time;
                          pt_volume := volume; pt_paused := paused s |}) ;;
    emit (Echo "").

Definition play_file (file_path : string) : M unit :=
  try_except_pygame
    (audio <- mutagen_File file_path ;;
     update (set_duration (match audio with
                           | Some length => length
                           | None => Py.f0
                           end)) ;;
     mixer_music_load file_path ;;
     mixer_music_play file_path ;;
     update (set_current_track (Some file_path)) ;;
     update (set_playing true) ;;
     update (set_paused false) ;;
     now <- time_time ;;
     update (set_start_time now) ;;
     update (set_total_pause_time Py.f0) ;;
     update (set_pause_position Py.f0) ;;
     update (set_first_display true) ;;
     display_progress_bar Py.f0)
    (fun e => emit (EchoErr (String "013" "Error playing file: " ++ e)%string)).

Definition pause : M unit :=
  s <- get_self ;;
  if playing s && negb (paused s) then
    emit MixerPause ;;
    update (set_paused true) ;;
    now <- time_time ;;
    update (set_pause_start now) ;;
    position <- get_current_position ;;
    update (set_pause_position position) ;;
    s' <- get_self ;;
    display_progress_bar (pause_position s')
  else if playing s && paused s then
    emit MixerUnpause ;;
    update (set_paused false) ;;
    s' <- get_self ;;
    now <- time_time ;;
    update (set_total_pause_time
              (total_pause_time s' + (now - pause_start s'))%float) ;;
    position <- get_current_position ;;
    display_progress_bar position
  else ret tt.

Definition stop : M unit :=
  s <- get_self ;;
  if playing s then
    emit MixerStop ;;
    update (set_playing false) ;;
    update (set_paused false)
  else ret tt.

(** Lines 129-132: the new volume. *)
Definition next_volume (up : bool) (v : float) : float :=
  if up && (v <? Py.f1)%float then Py.min2 Py.f1 (v + Py.f0_1)%float
  else if negb up && (Py.f0 <? v)%float then Py.max2 Py.f0 (v - Py.f0_1)%float
  else v.

Definition adjust_volume (up : bool) : M unit :=
  update (fun s => set_current_volume (next_volume up (current_volume s)) s) ;;
  s <- get_self ;;
  emit (MixerSetVolume (current_volume s)) ;;
  position <- get_current_position ;;
  display_progress_bar position.

(** ** The progress thread *)

(** The two locals of [update_progress_bar]. *)
Record ticker := { last_position : float; last_update : float }.

Definition init_ticker : ticker :=
  {| last_position := (-1)%float; last_update := Py.f0 |}.

(** One turn of the loop of [update_progress_bar], entered because
    [player.playing] held; the [time.sleep] is not modelled. *)
Definition update_progress_bar_turn (t : ticker) : M ticker :=
  s <- get_self ;;
  if negb (paused s) then
    current_time <- time_time ;;
    position <- get_current_position ;;
    s' <- get_self ;;
    if negb (position =? last_position t)%float
       && (position <=? duration s')%float
       && (Py.f0_1 <=? current_time - last_update t)%float
    then
      display_progress_bar position ;;
      ret {| last_position := position; last_update := current_time |}
    else ret t
  else ret t.

End Player.

(** ** The keyboard dispatcher and the playlist loop *)

Inductive action := Next | Prev.

(** How a stretch of the program that reads keys ends: it returns, it
    raises, or it has read every key typed so far and [get_char] blocks. *)
Inductive reading (A : Type) :=
| Returned (a : A) (rest : list ascii) (m : machine)
| Raised (e : Py.exn) (rest : list ascii) (m : machine)
| Blocked (m : machine)
| OutOfFuel.

Arguments Returned {A} a rest m.
Arguments Raised {A} e rest m.
Arguments Blocked {A} m.
Arguments OutOfFuel {A}.

Section Session.

Variable W : world.

(** [music_files and current_index is not None] *)
Definition playlist_context (music_files : option (list string))
  (current_index : option Z) : bool :=
  match music_files, current_index with
  | Some (_ :: _), Some _ => true
  | _, _ => false
  end.

(** [handle_keyboard_input]: the [while True] loop runs once per key of
    [keys], the keys typed from now on. *)
Fixpoint handle_keyboard_input (music_files : option (list string))
  (current_index : option Z) (keys : list ascii) (m : machine)
  : reading action :=
  match keys with
  | [] => Blocked m
  | char :: rest =>
      let continue (o : outcome unit) :=
        match o with
        | Ok _ m' => handle_keyboard_input music_files current_index rest m'
        | Raise e m' => Raised e rest m'
        end in
      if Ascii.eqb char " " then continue (pause W m)
      else if Ascii.eqb char "+" then continue (adjust_volume W true m)
      else if Ascii.eqb char "-" then continue (adjust_volume W false m)
      else if Ascii.eqb char "q" then
        continue ((stop ;;
                   emit (Echo (String "010" "Quitting...")) ;;
                   raise (Py.SystemExit 0)) m)
      else if Ascii.eqb char "n" && playlist_context music_files current_index
      then Returned Next rest m
      else if Ascii.eqb char "p" && playlist_context music_files current_index
      then Returned Prev rest m
      else handle_keyboard_input music_files current_index rest m
  end.

(** Lines 237-255: the loop of the directory mode, from the test of its
    condition. It returns the index it left the loop with. Every turn
    reads at least one key, so [fuel] bounds the number of turns. *)
Fixpoint playlist_loop (fuel : nat) (music_files : list string)
  (current_index : Z) (keys : list ascii) (m : machine) : reading Z :=
  match fuel with
  | O => OutOfFuel
  | S fuel' =>
      if (0 <=? current_index)
         && (current_index <? Z.of_nat (List.length music_files))
      then
        match play_file W (nth (Z.to_nat current_index) music_files "") m with
        | Raise e m1 => Raised e keys m1
        | Ok _ m1 =>
            match handle_keyboard_input (Some music_files)
                    (Some current_index) keys m1 with
            | Returned a rest m2 =>
                let current_index' :=
                  match a with
                  | Next => current_index + 1
                  | Prev => current_index - 1
                  end in
                match stop m2 with
                | Ok _ m3 =>
                    playlist_loop fuel' music_files current_index' rest m3
                | Raise e m3 => Raised e rest m3
                end
            | Raised e rest m2 => Raised e rest m2
            | Blocked m2 => Blocked m2
            | OutOfFuel => OutOfFuel
            end
        end
      else Returned current_index keys m
  end.

(** [print_controls] *)
Definition print_controls : M unit :=
  emit (Echo (String "010" "Controls:")) ;;
  emit (Echo " space - play/pause") ;;
  emit (Echo " + - volume up") ;;
  emit (Echo " - - volume down") ;;
  emit (Echo " q - quit") ;;
  emit (Echo " n - next track (in directory mode)") ;;
  emit (Echo " p - previous track (in directory mode)").

(** What [PATH] is on disk: a file, or a directory of which
    [music_files] are the entries with a supported suffix, in the order
    [iterdir] gave them. *)
Inductive target :=
| IsFile (path : string)
| IsDir (music_files : list string).

(** [main] for the keys [keys], once [MusicPlayer()] (line 212) has
    returned; [run_main] below has the case in which it raises. The
    progress threads [main] starts are not part of this sequential
    run. *)
Definition main (t : target) (keys : list ascii) : reading unit :=
  match print_controls MusicPlayer_init with
  | Raise e m => Raised e keys m
  | Ok _ m =>
      match t with
      | IsFile path =>
          match play_file W path m with
          | Raise e m1 => Raised e keys m1
          | Ok _ m1 =>
              match handle_keyboard_input None None keys m1 with
              | Returned _ rest m2 => Returned tt rest m2
              | Raised e rest m2 => Raised e rest m2
              | Blocked m2 => Blocked m2
              | OutOfFuel => OutOfFuel
              end
          end
      | IsDir music_files =>
          match music_files with
          | [] =>
              match emit (Echo "No supported music files found in directory")
                      m with
              | Ok _ m1 => Returned tt keys m1
              | Raise e m1 => Raised e keys m1
              end
          | _ :: _ =>
              match emit (Echo ("Found "
                                ++ Py.str_int
                                     (Z.of_nat (List.length music_files))
                                ++ " music files")%string) m with
              | Raise e m1 => Raised e keys m1
              | Ok _ m1 =>
                  match playlist_loop (S (List.length keys)) music_files 0
                          keys m1 with
                  | Returned _ rest m2 => Returned tt rest m2
                  | Raised e rest m2 => Raised e rest m2
                  | Blocked m2 => Blocked m2
                  | OutOfFuel => OutOfFuel
                  end
              end
          end
      end
  end.

End Session.



(** ** Reachable states *)

(** Everything but [first_display], the one field the renderer writes. *)
Definition same_transport (p q : MusicPlayer) : Prop :=
  current_track p = current_track q /\ playing p = playing q
  /\ current_volume p = current_volume q /\ paused p = paused q
  /\ duration p = duration q /\ start_time p = start_time q
  /\ pause_start p = pause_start q
  /\ total_pause_time p = total_pause_time q
  /\ pause_position p = pause_position q.

(** One call on the player, by the foreground or by a progress thread;
    a call that raises leaves the state it raised in. *)
Inductive step (W : world) : machine -> machine -> Prop :=
| step_play_file path m : step W m (final (play_file W path m))
| step_pause m : step W m (final (pause W m))
| step_stop m : step W m (final (stop m))
| step_adjust_volume up m : step W m (final (adjust_volume W up m))
| step_get_current_position m : step W m (final (get_current_position W m))
| step_update_progress_bar t m :
    playing (self m) = true ->
    step W m (final (update_progress_bar_turn W t m)).

Inductive reachable (W : world) : machine -> Prop :=
| reachable_init : reachable W MusicPlayer_init
| reachable_step m m' : reachable W m -> step W m m' -> reachable W m'.

(** The flags' invariant: paused only while playing. *)
Definition flags_ok (p : MusicPlayer) : Prop :=
  paused p = true -> playing p = true.

Definition is_pygame_error (e : Py.exn) : bool :=
  match e with Py.PygameError _ => true | _ => false end.

Definition error_line (msg : string) : effect :=
  EchoErr (String "013" "Error playing file: " ++ msg)%string.

(** The player as [play_file] leaves it before it draws the first frame. *)
Definition started (path : string) (length now : float) (p : MusicPlayer)
  : MusicPlayer :=
  {| current_track := Some path; playing := true;
     current_volume := current_volume p; paused := false;
     duration := length; start_time := now;
     pause_start := pause_start p; total_pause_time := Py.f0;
     pause_position := Py.f0; first_display := true |}.

Definition metadata_duration (W : world) (path : string) : float :=
  match mutagen_length W path with
  | Some length => length
  | None => Py.f0
  end.

(** ** A sample world *)

(** A clock that advances by ten seconds at every reading, from 1000. *)
Fixpoint sample_clock (n : nat) : float :=
  match n with
  | O => 1000%float
  | S k => (sample_clock k + 10)%float
  end.

(** The mixer opens. Tracks last 100 seconds, except that mutagen makes
    nothing of [untagged.wav] and fails on [junk.mp3]; the mixer refuses
    [broken.ogg]. *)
Definition sample_world : world :=
  {| clock := sample_clock;
     init_error := None;
     mutagen_file := fun path =>
       if String.eqb path "untagged.wav" then FileFalsy
       else if String.eqb path "junk.mp3"
            then FileRaises "can't sync to MPEG frame"
            else FileInfo 100%float;
     load_error := fun path =>
       if String.eqb path "broken.ogg" then Some "Unrecognized audio format"
       else None;
     play_error := fun _ => None |}.

(** The sample world after [song.mp3] was started on a new player (the
    clock read 1000), and then after [pause] was called (the clock read
    1010). *)
Definition sample_playing : machine :=
  final (play_file sample_world "song.mp3" MusicPlayer_init).

Definition sample_paused : machine :=
  final (pause sample_world sample_playing).

(** The message of the [pygame.error] that loading and starting
    [path] raises in [play_file], if it raises one; when [File(path)]
    raises, [play_file] gets to neither. *)
Definition playback_error (W : world) (path : string) : option string :=
  match mutagen_file W path with
  | FileRaises _ => None
  | _ =>
      match load_error W path with
      | Some msg => Some msg
      | None => play_error W path
      end
  end.

(** ** Exact values *)

(** The rational a finite float stands for. *)
Definition Qvalue (x : spec_float) : option Q :=
  match x with
  | S754_zero _ => Some 0%Q
  | S754_finite s m e =>
      Some (inject_Z (cond_Zopp s (Zpos m)) * Qpower 2 e)%Q
  | _ => None
  end.

(** A string without a dot. *)
Definition no_dot (s : string) : Prop := Py.split_dot_head s = s.

(** ** Volumes *)

(** The binary64 floats nearest to 0.1, 0.2, ..., 0.9. *)
Definition tenths : list float :=
  [0x1.999999999999ap-4; 0x1.999999999999ap-3; 0x1.3333333333333p-2;
   0x1.999999999999ap-2; 0x1p-1; 0x1.3333333333333p-1;
   0x1.6666666666666p-1; 0x1.999999999999ap-1; 0x1.ccccccccccccdp-1]%float.

(** [adjust_volume(up=True)] then [adjust_volume(up=False)], on the
    volume alone. *)
Definition up_then_down (v : float) : float :=
  next_volume false (next_volume true v).

(** The volume after the calls [ups], first call first. *)
Definition volume_after (ups : list bool) (v : float) : float :=
  fold_left (fun v up => next_volume up v) ups v.

(** A volume in [0.0, 1.0]. *)
Definition volume_in_range (v : float) : Prop :=
  (0 <=? v)%float = true /\ (v <=? 1)%float = true.

(** ** Binary64 numbers *)

Definition exact_record (mrs : shr_record) : Prop :=
  shr_r mrs = false /\ shr_s mrs = false.

(** [mrs'] is [mrs] shifted by [k] bits. *)
Definition shifted (k : Z) (mrs mrs' : shr_record) : Prop :=
  0 <= shr_m mrs'
  /\ shr_m mrs' = shr_m mrs / 2 ^ k
  /\ (exact_record mrs -> shr_m mrs mod 2 ^ k = 0 -> exact_record mrs').

(** [x] is a zero, a finite number or an infinity of sign [s]. *)
Definition signed (s : bool) (x : spec_float) : Prop :=
  match x with
  | S754_zero s' | S754_infinity s' | S754_finite s' _ _ => s' = s
  | S754_nan => False
  end.

(** [x] is a zero, or a finite number of exponent at most 0 and of
    magnitude at most the integer [B]. *)
Definition within (B : Z) (x : spec_float) : Prop :=
  match x with
  | S754_zero _ => True
  | S754_finite _ p e => e <= 0 /\ Zpos p <= B * 2 ^ (- e)
  | _ => False
  end.

(** [x] is a zero, a positive number or the positive infinity. *)
Definition nonneg (x : spec_float) : Prop :=
  match x with
  | S754_zero _ | S754_finite false _ _ | S754_infinity false => True
  | _ => False
  end.

Definition SF_zero : spec_float := S754_zero false.
Definition SF_one : spec_float := S754_finite false 4503599627370496 (-52).

(** ** The bar of the specification *)

(** Follows the specification's words: [clamp(x, lo, hi)]. *)
Definition spec_clamp (x lo hi : float) : float :=
  if (x <? lo)%float then lo else if (hi <? x)%float then hi else x.

(** Follows the specification's words:
    [filled = floor(width * clamp(position/duration, 0, 1))], with
    [width = 30]. *)
Definition spec_filled (position duration : float) : Py.exn + Z :=
  Py.int (Py.f30 * spec_clamp (position / duration) Py.f0 Py.f1)%float.

(** Follows the specification's words: [filled] solid cells, then, if
    cells remain, one head cell and empty cells up to the width 30. *)
Definition spec_bar (filled : Z) : list N :=
  (repeat solid_glyph (Z.to_nat filled)
   ++ (if filled <? 30
       then head_glyph :: repeat empty_glyph (Z.to_nat (30 - filled - 1))
       else []))%list.

(** The state after the calls [adjust_volume(up)] for [up] in [ups],
    first call first; a call that raises ends the run. *)
Fixpoint adjust_volume_calls (W : world) (ups : list bool) (m : machine)
  : machine :=
  match ups with
  | [] => m
  | up :: rest =>
      match adjust_volume W up m with
      | Ok _ m' => adjust_volume_calls W rest m'
      | Raise _ m' => m'
      end
  end.

(** ** Frames *)

(** What [display_progress_bar] prints before the three lines of a
    frame: a blank line the first time, the cursor movement after. *)
Definition frame_prefix (first : bool) : effect :=
  if first then Echo "" else CursorUpClear.

(** An effect on the terminal, as opposed to a call to the mixer. *)
Definition is_terminal_output (e : effect) : bool :=
  match e with
  | Echo _ | EchoErr _ | CursorUpClear | TrackName _ | ProgressLine _ => true
  | _ => false
  end.

(** The exceptions a frame can end in. *)
Definition is_render_error (e : Py.exn) : bool :=
  match e with
  | Py.ValueError | Py.OverflowError | Py.TypeError => true
  | _ => false
  end.


(** The calls made to the mixer, in order. *)
Definition mixer_calls (t : list effect) : list effect :=
  filter (fun e => negb (is_terminal_output e)) t.

(** ** What holds of the player throughout *)

(** Paused only while playing, a volume in [0.0, 1.0], a
    [pause_position] of 0, and a current track whenever playing. *)
Definition player_ok (p : MusicPlayer) : Prop :=
  flags_ok p
  /\ volume_in_range (current_volume p)
  /\ pause_position p = Py.f0
  /\ (playing p = true -> current_track p <> None).

(** ** Sessions *)

(** The keys [handle_keyboard_input] acts on; every other key is
    ignored. *)
Definition is_command_key (c : ascii) : bool :=
  Ascii.eqb c " " || Ascii.eqb c "+" || Ascii.eqb c "-" || Ascii.eqb c "q"
  || Ascii.eqb c "n" || Ascii.eqb c "p".

(** The state a stretch of the program that reads keys stands in. *)
Definition reading_state {A} (r : reading A) : option machine :=
  match r with
  | Returned _ _ m | Raised _ _ m | Blocked m => Some m
  | OutOfFuel => None
  end.

(** [P] holds of the state [r] stands in. *)
Definition stands_in {A} (P : machine -> Prop) (r : reading A) : Prop :=
  match reading_state r with
  | Some m => P m
  | None => True
  end.


(** The files whose loading the trace records. *)
Fixpoint loaded (t : list effect) : list string :=
  match t with
  | [] => []
  | MixerLoad path :: rest => path :: loaded rest
  | _ :: rest => loaded rest
  end.

(** ** Walking a playlist *)

(** The mixer accepts [path] and mutagen gives it a positive duration
    that can be printed. *)
Definition plays_well (W : world) (path : string) : Prop :=
  playback_error W path = None
  /\ exists d total,
      mutagen_length W path = Some d
      /\ (0 <? d)%float = true
      /\ format_time d = inr total.

(** The mixer calls of a track that is started and then skipped. *)
Definition track_calls (path : string) : list effect :=
  [MixerLoad path; MixerPlay; MixerStop].

(** * Properties *)

(** ** The renderer leaves the transport alone *)

Ltac run :=
  cbv beta delta [bind ret raise lift get_self update emit time_time
                  try_except_pygame mixer_music_load mixer_music_play]
      iota zeta.

Ltac split_match :=
  match goal with
  | |- context [match ?x with _ => _ end] =>
      lazymatch x with
      | context [match _ with _ => _ end] => fail
      | _ => destruct x eqn:?
      end
  end.

Ltac proj_simpl :=
  cbn [final self clock_reads trace set_first_display set_current_track
       set_playing set_current_volume set_paused set_duration set_start_time
       set_pause_start set_total_pause_time set_pause_position
       current_track playing current_volume paused duration start_time
       pause_start total_pause_time pause_position first_display
       negb andb orb].


Lemma display_progress_bar_frame position m :
  same_transport (self m) (self (final (display_progress_bar position m)))
  /\ clock_reads (final (display_progress_bar position m)) = clock_reads m.
Proof.
  unfold display_progress_bar, same_transport. run.
  repeat (split_match; proj_simpl);
    repeat split; congruence.
Qed.

(** ** What each method does to the flags and to [pause_position] *)

Lemma get_current_position_state W m :
  self (final (get_current_position W m)) = self m.
Proof.
  unfold get_current_position. run.
  repeat (split_match; proj_simpl); reflexivity.
Qed.

Lemma stop_flags m :
  playing (self (final (stop m))) = false
  /\ paused (self (final (stop m))) = paused (self m) && negb (playing (self m))
  /\ pause_position (self (final (stop m))) = pause_position (self m).
Proof.
  unfold stop. run. destruct (playing (self m)) eqn:Hp; proj_simpl.
  - repeat split; try reflexivity. now rewrite andb_false_r.
  - repeat split; auto. now rewrite andb_true_r.
Qed.

(** The tail call to the renderer, peeled off. *)
Lemma final_display_tail position m (P : MusicPlayer -> Prop) :
  (forall p, same_transport (self m) p -> P p) ->
  P (self (final (display_progress_bar position m))).
Proof.
  intros H. apply H. apply display_progress_bar_frame.
Qed.

Lemma adjust_volume_transport W up m :
  let p := self (final (adjust_volume W up m)) in
  playing p = playing (self m) /\ paused p = paused (self m)
  /\ pause_position p = pause_position (self m)
  /\ current_volume p = next_volume up (current_volume (self m)).
Proof.
  unfold adjust_volume, get_current_position. run. proj_simpl.
  destruct (playing (self m)) eqn:Hp; proj_simpl;
    [destruct (paused (self m)) eqn:Hq; proj_simpl|];
    apply final_display_tail; unfold same_transport; proj_simpl;
    intros p H; decompose [and] H; repeat split; congruence.
Qed.

Lemma pause_transport W m :
  let p := self (final (pause W m)) in
  playing p = playing (self m)
  /\ paused p = (if playing (self m) then negb (paused (self m))
                 else paused (self m))
  /\ pause_position p = pause_position (self m)
  /\ current_volume p = current_volume (self m).
Proof.
  unfold pause, get_current_position. run. proj_simpl.
  destruct (playing (self m)) eqn:Hp; proj_simpl;
    [destruct (paused (self m)) eqn:Hq; proj_simpl|].
  - rewrite Hp. proj_simpl.
    apply final_display_tail; unfold same_transport; proj_simpl;
      intros p H; decompose [and] H; repeat split; congruence.
  - rewrite Hp. proj_simpl.
    apply final_display_tail; unfold same_transport; proj_simpl;
      intros p H; decompose [and] H; repeat split; congruence.
  - repeat split; auto.
Qed.

(** ** What [int], the time format and the bar can raise *)

Lemma int_raises x e : Py.int x = inl e -> is_pygame_error e = false.
Proof.
  unfold Py.int, Py.int_of_spec.
  destruct (Prim2SF x); intros H; inversion H; reflexivity.
Qed.

Lemma format_time_raises x e :
  format_time x = inl e -> is_pygame_error e = false.
Proof.
  unfold format_time, Py.str_timedelta_seconds.
  destruct (Py.int x) eqn:Hi.
  - intros H; inversion H; subst. eapply int_raises; eauto.
  - destruct (_ <? _); intros H; inversion H; reflexivity.
Qed.

Lemma progress_bar_raises x e :
  progress_bar x = inl e -> is_pygame_error e = false.
Proof.
  unfold progress_bar. destruct (Py.int _) eqn:Hi; intros H; inversion H.
  subst. eapply int_raises; eauto.
Qed.

Lemma display_progress_bar_raises position m e m' :
  display_progress_bar position m = Raise e m' -> is_pygame_error e = false.
Proof.
  unfold display_progress_bar. run.
  repeat (split_match; proj_simpl); intros H; inversion H; subst;
    eauto using int_raises, format_time_raises, progress_bar_raises.
Qed.

Lemma try_except_pygame_display position m handler :
  try_except_pygame (display_progress_bar position) handler m
  = display_progress_bar position m.
Proof.
  unfold try_except_pygame.
  destruct (display_progress_bar position m) eqn:H; [reflexivity|].
  apply display_progress_bar_raises in H. destruct e; try discriminate;
    reflexivity.
Qed.

(** ** [play_file], case by case *)

Lemma play_file_file_error W path msg m :
  mutagen_file W path = FileRaises msg ->
  play_file W path m = Raise (Py.MutagenError msg) m.
Proof.
  intros F. unfold play_file, try_except_pygame, mutagen_File. run.
  rewrite F. reflexivity.
Qed.

Lemma mutagen_length_info W path d :
  mutagen_length W path = Some d -> mutagen_file W path = FileInfo d.
Proof.
  unfold mutagen_length. destruct (mutagen_file W path); congruence.
Qed.

Lemma play_file_cases W path m :
  (forall msg, mutagen_file W path <> FileRaises msg) ->
  match load_error W path, play_error W path with
  | Some msg, _ =>
      play_file W path m
      = Ok tt {| self := set_duration (metadata_duration W path) (self m);
                 clock_reads := clock_reads m;
                 trace := (trace m ++ [error_line msg])%list |}
  | None, Some msg =>
      play_file W path m
      = Ok tt {| self := set_duration (metadata_duration W path) (self m);
                 clock_reads := clock_reads m;
                 trace := ((trace m ++ [MixerLoad path])
                             ++ [error_line msg])%list |}
  | None, None =>
      play_file W path m
      = display_progress_bar Py.f0
          {| self := started path (metadata_duration W path)
                       (clock W (clock_reads m)) (self m);
             clock_reads := S (clock_reads m);
             trace := ((trace m ++ [MixerLoad path]) ++ [MixerPlay])%list |}
  end.
Proof.
  intros F. unfold play_file, metadata_duration, mutagen_length, error_line.
  destruct (load_error W path) eqn:Hl; [|destruct (play_error W path) eqn:Hp].
  - unfold try_except_pygame, mixer_music_load, mutagen_File. run.
    destruct (mutagen_file W path) as [msg| |d];
      [now elim (F msg)| |]; run; rewrite Hl; reflexivity.
  - unfold try_except_pygame, mixer_music_load, mixer_music_play,
      mutagen_File. run.
    destruct (mutagen_file W path) as [msg| |d];
      [now elim (F msg)| |]; run; rewrite Hl, Hp; reflexivity.
  - rewrite <- (try_except_pygame_display Py.f0 _
                  (fun e => emit (error_line e))).
    unfold try_except_pygame, mixer_music_load, mixer_music_play,
      mutagen_File. run.
    destruct (mutagen_file W path) as [msg| |d];
      [now elim (F msg)| |]; run; rewrite Hl, Hp; reflexivity.
Qed.

Lemma file_raises_or_not W path :
  (exists msg, mutagen_file W path = FileRaises msg)
  \/ (forall msg, mutagen_file W path <> FileRaises msg).
Proof.
  destruct (mutagen_file W path) as [msg| |d];
    [left; now exists msg|right; intros ?; discriminate..].
Qed.

Lemma play_file_transport W path m :
  let p := self (final (play_file W path m)) in
  pause_position p = Py.f0 \/ pause_position p = pause_position (self m).
Proof.
  destruct (file_raises_or_not W path) as [[msg F]|F];
    [rewrite (play_file_file_error W path msg m F); proj_simpl; auto|].
  pose proof (play_file_cases W path m F) as H.
  destruct (load_error W path); [|destruct (play_error W path)];
    rewrite H; proj_simpl; auto.
  left. apply final_display_tail. unfold same_transport. proj_simpl.
  intros p Hp. decompose [and] Hp. unfold started in *. simpl in *. congruence.
Qed.

Lemma play_file_flags W path m :
  flags_ok (self m) -> flags_ok (self (final (play_file W path m))).
Proof.
  destruct (file_raises_or_not W path) as [[msg F]|F];
    [rewrite (play_file_file_error W path msg m F); proj_simpl; auto|].
  pose proof (play_file_cases W path m F) as H.
  destruct (load_error W path); [|destruct (play_error W path)];
    rewrite H; proj_simpl; auto.
  intros _. apply final_display_tail. unfold same_transport, flags_ok.
  intros p Hp. decompose [and] Hp. unfold started in *. simpl in *. congruence.
Qed.

(** ** The progress thread leaves the transport alone *)

Lemma final_bind_ret {A B} (c : M A) (f : A -> B) m :
  final (bind c (fun a => ret (f a)) m) = final (c m).
Proof. unfold bind, ret. destruct (c m); reflexivity. Qed.

Lemma update_progress_bar_turn_transport W t m :
  same_transport (self m) (self (final (update_progress_bar_turn W t m))).
Proof.
  assert (R : same_transport (self m) (self m))
    by (unfold same_transport; repeat split).
  unfold update_progress_bar_turn, get_current_position. run. proj_simpl.
  destruct (paused (self m)) eqn:Hq; proj_simpl; [assumption|].
  destruct (playing (self m)) eqn:Hp; proj_simpl; rewrite ?Hq; proj_simpl;
    (split_match; proj_simpl; [|assumption]);
    match goal with
    | |- context [display_progress_bar ?pos ?m1] =>
        pose proof (display_progress_bar_frame pos m1) as [F _];
        destruct (display_progress_bar pos m1); exact F
    end.
Qed.

(** ** One step, whatever it is *)

Lemma step_flags W m m' :
  step W m m' -> flags_ok (self m) -> flags_ok (self m').
Proof.
  unfold flags_ok. intros S; destruct S; intros I.
  - now apply play_file_flags.
  - destruct (pause_transport W m) as (Hp & Hq & _). rewrite Hp, Hq.
    destruct (playing (self m)); auto.
  - destruct (stop_flags m) as (Hp & Hq & _). rewrite Hp, Hq.
    destruct (playing (self m)), (paused (self m)); simpl; auto.
  - destruct (adjust_volume_transport W up m) as (Hp & Hq & _).
    now rewrite Hp, Hq.
  - now rewrite get_current_position_state.
  - destruct (update_progress_bar_turn_transport W t m)
      as (_ & Hp & _ & Hq & _). now rewrite <- Hp, <- Hq.
Qed.

Lemma step_pause_position W m m' :
  step W m m' ->
  pause_position (self m) = Py.f0 -> pause_position (self m') = Py.f0.
Proof.
  intros S; destruct S; intros I.
  - destruct (play_file_transport W path m); congruence.
  - destruct (pause_transport W m) as (_ & _ & H & _). congruence.
  - destruct (stop_flags m) as (_ & _ & H). congruence.
  - destruct (adjust_volume_transport W up m) as (_ & _ & H & _). congruence.
  - now rewrite get_current_position_state.
  - destruct (update_progress_bar_turn_transport W t m) as (_ & T).
    decompose [and] T. congruence.
Qed.

Lemma reachable_flags W m : reachable W m -> flags_ok (self m).
Proof.
  induction 1 as [|m m' _ IH S].
  - unfold flags_ok. simpl. discriminate.
  - eapply step_flags; eauto.
Qed.

Lemma reachable_pause_position W m :
  reachable W m -> pause_position (self m) = Py.f0.
Proof.
  induction 1 as [|m m' _ IH S].
  - reflexivity.
  - eapply step_pause_position; eauto.
Qed.

(** ** Initial state and flags *)

(** C10: a newly constructed player has volume 0.5, which is also the
    volume it sets on the mixer; it is neither playing nor paused, its
    duration is 0 and it has no current track. *)
Theorem C10_initial_state :
  current_volume (self MusicPlayer_init) = Py.f0_5
  /\ trace MusicPlayer_init = [MixerInit; MixerSetVolume Py.f0_5]
  /\ playing (self MusicPlayer_init) = false
  /\ paused (self MusicPlayer_init) = false
  /\ duration (self MusicPlayer_init) = Py.f0
  /\ current_track (self MusicPlayer_init) = None.
Proof. repeat split. Qed.

(** C9: in every state reached from construction by calls to
    [play_file], [pause], [stop], [adjust_volume], by position queries
    and by turns of the progress thread, the player is paused only if
    it is playing; every such call keeps this, and after [stop] both
    flags are off. *)
Theorem C9_paused_implies_playing W m :
  reachable W m ->
  flags_ok (self m)
  /\ (forall m', step W m m' -> flags_ok (self m'))
  /\ playing (self (final (stop m))) = false
  /\ paused (self (final (stop m))) = false.
Proof.
  intros R. pose proof (reachable_flags W m R) as I.
  split; [exact I|]. split; [intros m' S; eapply step_flags; eauto|].
  destruct (stop_flags m) as (Hp & Hq & _). split; [exact Hp|].
  rewrite Hq. unfold flags_ok in I.
  destruct (paused (self m)); [rewrite I|]; reflexivity.
Qed.

Lemma C9_paused_implies_playing_witness :
  reachable sample_world sample_paused
  /\ paused (self sample_paused) = true
  /\ flags_ok (self sample_paused)
  /\ paused (self (final (stop sample_paused))) = false.
Proof.
  assert (R : reachable sample_world sample_paused).
  { apply reachable_step with (m := sample_playing).
    - apply reachable_step with (m := MusicPlayer_init).
      + apply reachable_init.
      + apply step_play_file.
    - apply step_pause. }
  split; [exact R|]. split; [vm_compute; reflexivity|].
  pose proof (C9_paused_implies_playing sample_world sample_paused R)
    as (I & _ & _ & Hq).
  split; assumption.
Defined.

(** ** Position queries *)

Lemma get_current_position_cases W m :
  get_current_position W m =
  if negb (playing (self m)) then Ok Py.f0 m
  else if paused (self m) then Ok (pause_position (self m)) m
  else Ok (clock W (clock_reads m) - start_time (self m)
           - total_pause_time (self m))%float
          {| self := self m; clock_reads := S (clock_reads m);
             trace := trace m |}.
Proof.
  unfold get_current_position. run.
  destruct (playing (self m)), (paused (self m)); reflexivity.
Qed.

(** While paused, every reachable player answers 0 to a position query,
    whatever the position was when it was paused. *)
Lemma paused_position_is_zero W m :
  reachable W m -> paused (self m) = true ->
  get_current_position W m = Ok Py.f0 m.
Proof.
  intros R Hq. rewrite get_current_position_cases.
  rewrite (reachable_flags W m R Hq), Hq. simpl.
  now rewrite (reachable_pause_position W m R).
Qed.

(** C4, at the input where the code departs from it: a track started
    when the clock read 1000 is paused when the clock reads 1010.  A
    query just before the pause answers 10; the pause records its
    instant, 1010, but leaves [pause_position] at 0, and every query
    made while paused answers 0, not 10. *)
Theorem C4_pause_position_not_captured :
  (exists m, get_current_position sample_world sample_playing
             = Ok 10%float m)
  /\ playing (self sample_paused) = true
  /\ paused (self sample_paused) = true
  /\ start_time (self sample_paused) = 1000%float
  /\ pause_start (self sample_paused) = 1010%float
  /\ total_pause_time (self sample_paused) = 0%float
  /\ get_current_position sample_world sample_paused
     = Ok 0%float sample_paused.
Proof.
  split; [eexists; vm_compute; reflexivity|].
  repeat split; vm_compute; reflexivity.
Qed.

(** ** Unknown durations *)




(** ** The keyboard dispatcher *)

Lemma stop_returns m : stop m = Ok tt (final (stop m)).
Proof. unfold stop. run. destruct (playing (self m)); reflexivity. Qed.

Lemma handle_keyboard_input_next W music_files current_index rest m :
  playlist_context music_files current_index = true ->
  handle_keyboard_input W music_files current_index ("n"%char :: rest) m
  = Returned Next rest m.
Proof. intros H. simpl. rewrite H. reflexivity. Qed.




(** ** Playback errors *)

Lemma play_file_error W path msg m :
  playback_error W path = Some msg ->
  exists before,
    play_file W path m
    = Ok tt {| self := set_duration (metadata_duration W path) (self m);
               clock_reads := clock_reads m;
               trace := (trace m ++ before ++ [error_line msg])%list |}.
Proof.
  unfold playback_error. intros E0.
  assert (F : forall msg', mutagen_file W path <> FileRaises msg')
    by (intros msg' F; rewrite F in E0; discriminate).
  assert (E : match load_error W path with
              | Some msg => Some msg
              | None => play_error W path
              end = Some msg)
    by (destruct (mutagen_file W path); [discriminate|exact E0..]).
  clear E0. pose proof (play_file_cases W path m F) as H.
  destruct (load_error W path).
  - inversion E; subst. exists []. exact H.
  - rewrite E in H. exists [MixerLoad path]. rewrite H.
    now rewrite <- app_assoc.
Qed.

(** C3, as the code has it: when loading or starting a track raises
    [pygame.error], [play_file] prints the error on the error channel
    and returns, leaving the flags as they were; in directory mode the
    loop then waits on that track for a key, and moves to the next
    track when [n] is pressed. *)
Theorem C3_playback_error_reported W music_files i msg m :
  0 <= i < Z.of_nat (List.length music_files) ->
  playback_error W (nth (Z.to_nat i) music_files "") = Some msg ->
  exists m1,
    play_file W (nth (Z.to_nat i) music_files "") m = Ok tt m1
    /\ playing (self m1) = playing (self m)
    /\ paused (self m1) = paused (self m)
    /\ (exists before, trace m1 = (trace m ++ before ++ [error_line msg])%list)
    /\ (forall fuel, playlist_loop W (S fuel) music_files i [] m = Blocked m1)
    /\ (forall fuel rest,
          playlist_loop W (S fuel) music_files i ("n"%char :: rest) m
          = playlist_loop W fuel music_files (i + 1) rest (final (stop m1))).
Proof.
  intros Hi E.
  destruct (play_file_error W _ msg m E) as [before P].
  eexists. split; [exact P|]. split; [reflexivity|]. split; [reflexivity|].
  split; [exists before; reflexivity|].
  assert (C : (0 <=? i) && (i <? Z.of_nat (List.length music_files)) = true)
    by (apply andb_true_intro; split; [apply Z.leb_le|apply Z.ltb_lt]; lia).
  assert (X : playlist_context (Some music_files) (Some i) = true)
    by (destruct music_files; [simpl in Hi; lia|reflexivity]).
  split; intros fuel.
  - cbn [playlist_loop]. rewrite C, P. reflexivity.
  - intros rest. cbn [playlist_loop]. rewrite C, P.
    rewrite handle_keyboard_input_next by exact X.
    rewrite stop_returns. reflexivity.
Qed.

Lemma C3_playback_error_reported_witness :
  exists m1,
    play_file sample_world "broken.ogg" MusicPlayer_init = Ok tt m1
    /\ playlist_loop sample_world 1 ["broken.ogg"; "song.mp3"] 0 []
         MusicPlayer_init = Blocked m1.
Proof.
  destruct (C3_playback_error_reported sample_world
              ["broken.ogg"; "song.mp3"] 0 "Unrecognized audio format"
              MusicPlayer_init) as (m1 & P & _ & _ & _ & B & _).
  - simpl. lia.
  - reflexivity.
  - exists m1. split; [exact P|apply B].
Defined.

(** C3 as stated fails: with [broken.ogg] first in the directory and no
    key pressed, the error is printed and the loop waits; [song.mp3] is
    never loaded. *)
Lemma C3_counterexample :
  exists m,
    main sample_world (IsDir ["broken.ogg"; "song.mp3"]) [] = Blocked m
    /\ In (error_line "Unrecognized audio format") (trace m)
    /\ ~ In (MixerLoad "song.mp3") (trace m).
Proof.
  eexists. split; [vm_compute; reflexivity|]. split.
  - vm_compute. tauto.
  - cbn. intuition discriminate.
Qed.

(** ** The playlist loop *)

Lemma playlist_loop_outside W fuel music_files i keys m :
  ~ (0 <= i < Z.of_nat (List.length music_files)) ->
  playlist_loop W (S fuel) music_files i keys m = Returned i keys m.
Proof.
  intros H. cbn [playlist_loop].
  destruct ((0 <=? i) && (i <? Z.of_nat (List.length music_files))) eqn:C;
    [|reflexivity].
  apply andb_prop in C. destruct C as [C1 C2].
  apply Z.leb_le in C1. apply Z.ltb_lt in C2. lia.
Qed.



Lemma playlist_loop_turn W fuel music_files i rest m m1 char a :
  0 <= i < Z.of_nat (List.length music_files) ->
  play_file W (nth (Z.to_nat i) music_files "") m = Ok tt m1 ->
  handle_keyboard_input W (Some music_files) (Some i) (char :: rest) m1
  = Returned a rest m1 ->
  playlist_loop W (S fuel) music_files i (char :: rest) m
  = playlist_loop W fuel music_files
      (match a with Next => i + 1 | Prev => i - 1 end) rest (final (stop m1)).
Proof.
  intros Hi P K.
  assert (C : (0 <=? i) && (i <? Z.of_nat (List.length music_files)) = true)
    by (apply andb_true_intro; split; [apply Z.leb_le|apply Z.ltb_lt]; lia).
  cbn [playlist_loop]. rewrite C, P, K, stop_returns. reflexivity.
Qed.

Lemma playlist_context_in_range music_files i :
  0 <= i < Z.of_nat (List.length music_files) ->
  playlist_context (Some music_files) (Some i) = true.
Proof. destruct music_files; [simpl; lia|reflexivity]. Qed.

Lemma playlist_loop_next W fuel music_files i rest m m1 :
  0 <= i < Z.of_nat (List.length music_files) ->
  play_file W (nth (Z.to_nat i) music_files "") m = Ok tt m1 ->
  playlist_loop W (S fuel) music_files i ("n"%char :: rest) m
  = playlist_loop W fuel music_files (i + 1) rest (final (stop m1)).
Proof.
  intros Hi P. apply (playlist_loop_turn W fuel music_files i rest m m1 _ Next);
    auto using handle_keyboard_input_next, playlist_context_in_range.
Qed.




(** ** Whole seconds *)

Lemma Qlt_succ (n : Z) : (inject_Z n < inject_Z n + 1)%Q.
Proof.
  change 1%Q with (inject_Z 1). rewrite <- inject_Z_plus, <- Zlt_Qlt. lia.
Qed.

Lemma shiftl_floor m e :
  (inject_Z (Z.shiftl (Zpos m) e) <= inject_Z (Zpos m) * Qpower 2 e
   /\ inject_Z (Zpos m) * Qpower 2 e < inject_Z (Z.shiftl (Zpos m) e) + 1)%Q.
Proof.
  destruct (Z.le_gt_cases 0 e) as [He|He].
  - assert (E : (inject_Z (Zpos m) * Qpower 2 e
                 == inject_Z (Z.shiftl (Zpos m) e))%Q).
    { rewrite Z.shiftl_mul_pow2 by exact He.
      rewrite inject_Z_mult, (Zpower_Qpower 2 e He). reflexivity. }
    rewrite E. split; [apply Qle_refl|apply Qlt_succ].
  - rewrite Z.shiftl_div_pow2 by lia.
    set (k := (- e)%Z). assert (Hk : (0 <= k)%Z) by (unfold k; lia).
    assert (Hd : (0 < 2 ^ k)%Z) by (apply Z.pow_pos_nonneg; lia).
    assert (Hq : (0 < inject_Z (2 ^ k))%Q)
      by (change 0%Q with (inject_Z 0); rewrite <- Zlt_Qlt; exact Hd).
    assert (E : (inject_Z (Zpos m) * Qpower 2 e
                 == inject_Z (Zpos m) / inject_Z (2 ^ k))%Q).
    { replace e with (- k)%Z by (unfold k; lia).
      rewrite Qpower_opp, <- (Zpower_Qpower 2 k Hk). reflexivity. }
    rewrite E. split.
    + apply Qle_shift_div_l; [exact Hq|].
      rewrite <- inject_Z_mult, <- Zle_Qle.
      rewrite Z.mul_comm. apply Z.mul_div_le. exact Hd.
    + apply Qlt_shift_div_r; [exact Hq|].
      change 1%Q with (inject_Z 1).
      rewrite <- inject_Z_plus, <- inject_Z_mult, <- Zlt_Qlt.
      pose proof (Z.mul_succ_div_gt (Z.pos m) (2 ^ k) Hd). lia.
Qed.

Lemma int_nonneg x n :
  (0 <=? x)%float = true -> Py.int x = inr n ->
  0 <= n
  /\ forall q, Qvalue (Prim2SF x) = Some q ->
               (inject_Z n <= q /\ q < inject_Z n + 1)%Q.
Proof.
  rewrite leb_spec. unfold Py.int.
  assert (Z0 : Prim2SF 0 = S754_zero false) by reflexivity. rewrite Z0.
  destruct (Prim2SF x) as [s|s| |s m e]; cbn [Py.int_of_spec Qvalue];
    intros L H; inversion H; subst; clear H.
  - split; [lia|]. intros q E; inversion E; subst.
    split; [apply Qle_refl|apply (Qlt_succ 0)].
  - destruct s; [discriminate|]. cbn [cond_Zopp]. split.
    + apply Z.shiftl_nonneg. lia.
    + intros q E; inversion E; subst. apply shiftl_floor.
Qed.

(** ** The time format *)

Lemma string_of_uint_no_dot d : no_dot (NilEmpty.string_of_uint d).
Proof.
  unfold no_dot. induction d; cbn [NilEmpty.string_of_uint Py.split_dot_head];
    try reflexivity; cbn; now rewrite IHd.
Qed.

Lemma no_dot_cons c s :
  Ascii.eqb c "." = false -> no_dot s -> no_dot (String c s).
Proof.
  unfold no_dot. intros Hc Hs. cbn [Py.split_dot_head]. now rewrite Hc, Hs.
Qed.

Lemma nilzero_string_of_uint_no_dot d : no_dot (NilZero.string_of_uint d).
Proof.
  unfold NilZero.string_of_uint.
  destruct d; try reflexivity; apply string_of_uint_no_dot.
Qed.

Lemma str_int_no_dot n : no_dot (Py.str_int n).
Proof.
  unfold Py.str_int, NilZero.string_of_int.
  destruct (Z.to_int n) as [d|d].
  - apply nilzero_string_of_uint_no_dot.
  - apply no_dot_cons; [reflexivity|apply nilzero_string_of_uint_no_dot].
Qed.

Lemma split_dot_head_app a b :
  no_dot a -> Py.split_dot_head (a ++ b) = (a ++ Py.split_dot_head b)%string.
Proof.
  unfold no_dot. induction a as [|c a IH]; [reflexivity|].
  cbn [Py.split_dot_head append]. destruct (Ascii.eqb c "."); [discriminate|].
  intros H; inversion H as [H']. rewrite H'. now rewrite IH.
Qed.

Lemma no_dot_app a b : no_dot a -> no_dot b -> no_dot (a ++ b).
Proof.
  intros Ha Hb. unfold no_dot. rewrite split_dot_head_app by exact Ha.
  now rewrite Hb.
Qed.

Lemma fmt_02d_no_dot n : no_dot (Py.fmt_02d n).
Proof.
  unfold Py.fmt_02d. destruct (_ && _); [|apply str_int_no_dot].
  apply (no_dot_app "0"); [reflexivity|apply str_int_no_dot].
Qed.

Lemma str_timedelta_seconds_day n :
  0 <= n < 86400 ->
  Py.str_timedelta_seconds n
  = inr (Py.str_int (n / 3600) ++ ":" ++ Py.fmt_02d (n / 60 mod 60)
         ++ ":" ++ Py.fmt_02d (n mod 60))%string.
Proof.
  intros H. unfold Py.str_timedelta_seconds.
  rewrite (Z.div_small n 86400), (Z.mod_small n 86400) by lia.
  cbn [Z.abs Z.ltb Z.compare Z.eqb]. rewrite Z.div_div by lia.
  reflexivity.
Qed.

Lemma format_time_day x n :
  Py.int x = inr n -> 0 <= n < 86400 ->
  format_time x
  = inr (Py.str_int (n / 3600) ++ ":" ++ Py.fmt_02d (n / 60 mod 60)
         ++ ":" ++ Py.fmt_02d (n mod 60))%string.
Proof.
  intros Hi Hn. unfold format_time.
  rewrite Hi, str_timedelta_seconds_day by exact Hn.
  f_equal. apply no_dot_app; [apply str_int_no_dot|].
  apply (no_dot_app ":"); [reflexivity|].
  apply no_dot_app; [apply fmt_02d_no_dot|].
  apply (no_dot_app ":"); [reflexivity|apply fmt_02d_no_dot].
Qed.

Lemma fmt_02d_two_characters k :
  0 <= k < 60 -> String.length (Py.fmt_02d k) = 2%nat.
Proof.
  intros H.
  assert (A : forallb
                (fun i => Nat.eqb (String.length (Py.fmt_02d (Z.of_nat i))) 2)
                (seq 0 60) = true) by (vm_compute; reflexivity).
  rewrite forallb_forall in A.
  specialize (A (Z.to_nat k)). rewrite Z2Nat.id in A by lia.
  apply Nat.eqb_eq, A, in_seq. lia.
Qed.

(** C2, as the code has it: the whole seconds of a non-negative
    position (or duration) [x] are [x] truncated, never rounded up; when
    they are less than a day they are printed as [H:MM:SS], hours
    unpadded and present even when 0, minutes and seconds on two
    digits.  125 seconds are printed "0:02:05" and 3725 seconds
    "1:02:05". *)
Theorem C2_time_format x n :
  (0 <=? x)%float = true ->
  Py.int x = inr n ->
  0 <= n
  /\ (forall q, Qvalue (Prim2SF x) = Some q ->
                (inject_Z n <= q /\ q < inject_Z n + 1)%Q)
  /\ (n < 86400 ->
      format_time x
      = inr (Py.str_int (n / 3600) ++ ":" ++ Py.fmt_02d (n / 60 mod 60)
             ++ ":" ++ Py.fmt_02d (n mod 60))%string
      /\ String.length (Py.fmt_02d (n / 60 mod 60)) = 2%nat
      /\ String.length (Py.fmt_02d (n mod 60)) = 2%nat)
  /\ format_time 125 = inr "0:02:05"
  /\ format_time 3725 = inr "1:02:05".
Proof.
  intros Hx Hi. destruct (int_nonneg x n Hx Hi) as [Hn Hq].
  split; [exact Hn|]. split; [exact Hq|]. split.
  - intros Hd. split; [apply format_time_day; [exact Hi|lia]|].
    split; apply fmt_02d_two_characters.
    + apply Z.mod_pos_bound. lia.
    + apply Z.mod_pos_bound. lia.
  - split; vm_compute; reflexivity.
Qed.

Lemma C2_time_format_witness :
  (0 <=? 0x1.f7p+6)%float = true
  /\ Py.int 0x1.f7p+6 = inr 125
  /\ format_time 0x1.f7p+6 = inr "0:02:05".
Proof.
  split; [reflexivity|]. split; [reflexivity|].
  destruct (C2_time_format 0x1.f7p+6 125) as (_ & _ & F & _);
    [reflexivity|reflexivity|].
  destruct F as [F _]; [lia|]. exact F.
Defined.

(** C2 as stated fails: 125 seconds are not printed "2:05". *)
Lemma C2_counterexample :
  format_time 125 = inr "0:02:05" /\ format_time 125 <> inr "2:05".
Proof.
  split; [vm_compute; reflexivity|]. vm_compute. discriminate.
Qed.

(** ** Volume steps on the tenths *)

#[warnings="-inexact-float"]
Lemma tenths_are_the_literals :
  tenths = [0.1; 0.2; 0.3; 0.4; 0.5; 0.6; 0.7; 0.8; 0.9]%float.
Proof. reflexivity. Qed.

(** C6, as the code has it: from each of 0.1, 0.2, ..., 0.9, a step up
    followed by a step down comes back within 2^-54 of the volume it
    left: to that very volume, except from 0.2 and from 0.3, where it
    comes back to the next float above. *)
Theorem C6_up_down_round_trip :
  Forall (fun v =>
            (0 <? v)%float = true /\ (v <? 1)%float = true
            /\ (abs (up_then_down v - v) <=? 0x1p-54)%float = true
            /\ (if (v =? 0x1.999999999999ap-3)%float
                   || (v =? 0x1.3333333333333p-2)%float
                then (up_then_down v =? next_up v)%float
                else (up_then_down v =? v)%float) = true)
         tenths.
Proof.
  unfold tenths.
  repeat (apply Forall_cons; [repeat split; vm_compute; reflexivity|]).
  apply Forall_nil.
Qed.

(** C6 as stated fails: from 0.2, up then down gives
    0.20000000000000004. *)
Lemma C6_counterexample :
  In 0x1.999999999999ap-3%float tenths
  /\ up_then_down 0x1.999999999999ap-3 = 0x1.999999999999bp-3%float
  /\ (up_then_down 0x1.999999999999ap-3 =? 0x1.999999999999ap-3)%float = false.
Proof.
  split; [right; left; reflexivity|]. split; vm_compute; reflexivity.
Qed.

(** * Binary64 rounding *)

Ltac hide_powers :=
  repeat match goal with
         | H : context [Z.pow ?a ?b] |- _ =>
             let x := fresh "pw" in
             let E := fresh "Epw" in
             remember (Z.pow a b) as x eqn:E in *; clear E
         | |- context [Z.pow ?a ?b] =>
             let x := fresh "pw" in
             let E := fresh "Epw" in
             remember (Z.pow a b) as x eqn:E in *; clear E
         end.

Lemma digits2_pos_bounds p :
  2 ^ (Zpos (digits2_pos p) - 1) <= Zpos p < 2 ^ Zpos (digits2_pos p).
Proof.
  induction p as [p IH|p IH|]; cbn [digits2_pos].
  - rewrite Pos2Z.inj_succ. change (Zpos p~1) with (2 * Zpos p + 1).
    replace (Z.succ (Zpos (digits2_pos p)) - 1)
      with (Z.succ (Zpos (digits2_pos p) - 1)) by lia.
    rewrite !Z.pow_succ_r by lia. hide_powers. lia.
  - rewrite Pos2Z.inj_succ. change (Zpos p~0) with (2 * Zpos p).
    replace (Z.succ (Zpos (digits2_pos p)) - 1)
      with (Z.succ (Zpos (digits2_pos p) - 1)) by lia.
    rewrite !Z.pow_succ_r by lia. hide_powers. lia.
  - cbn. lia.
Qed.

Lemma Zdigits2_le m k :
  0 <= m < 2 ^ k -> 0 <= k -> Zdigits2 m <= k.
Proof.
  intros [H0 Hm] Hk. destruct m as [|p|p]; cbn [Zdigits2]; try lia.
  destruct (Z.le_gt_cases (Zpos (digits2_pos p)) k) as [|G]; [assumption|].
  pose proof (digits2_pos_bounds p) as [L _].
  assert (2 ^ k <= 2 ^ (Zpos (digits2_pos p) - 1))
    by (apply Z.pow_le_mono_r; lia).
  lia.
Qed.

Lemma Zdigits2_nonneg m : 0 <= Zdigits2 m.
Proof. destruct m; cbn; lia. Qed.

(** ** Shifting right *)

Lemma shr_1_shifted mrs : 0 <= shr_m mrs -> shifted 1 mrs (shr_1 mrs).
Proof.
  destruct mrs as [m r s]. cbn [shr_m]. intros Hm. unfold shifted, exact_record.
  change (2 ^ 1) with 2.
  destruct m as [|[p|p|]|p]; cbn [shr_1 shr_m shr_r shr_s]; try lia.
  - split; [reflexivity|]. split; [reflexivity|]. intros [-> ->] _. auto.
  - change (Zpos p~1) with (2 * Zpos p + 1).
    split; [lia|]. split; [apply Z.div_unique with 1; lia|].
    intros _ H. rewrite Z.add_comm, Z.mul_comm, Z.mod_add in H by lia.
    discriminate.
  - change (Zpos p~0) with (2 * Zpos p).
    split; [lia|]. split; [apply Z.div_unique with 0; lia|].
    intros [-> ->] _. auto.
  - split; [lia|]. split; [reflexivity|]. intros _ H. discriminate.
Qed.

Lemma shifted_trans a b x y z :
  0 <= a -> 0 <= b -> 0 <= shr_m x ->
  shifted a x y -> shifted b y z -> shifted (a + b) x z.
Proof.
  intros Ha Hb Hx (Y0 & Ym & Ye) (Z0 & Zm & Ze).
  assert (Pa : 0 < 2 ^ a) by (apply Z.pow_pos_nonneg; lia).
  assert (Pb : 0 < 2 ^ b) by (apply Z.pow_pos_nonneg; lia).
  split; [exact Z0|]. split.
  - rewrite Zm, Ym, Z.pow_add_r, Z.div_div by lia. reflexivity.
  - intros E H. rewrite Z.pow_add_r in H by lia.
    assert (D : shr_m x = 2 ^ a * 2 ^ b * (shr_m x / (2 ^ a * 2 ^ b)))
      by (apply Z.div_exact; [lia|exact H]).
    apply Ze.
    + apply Ye; [exact E|]. rewrite D.
      rewrite <- Z.mul_assoc, Z.mul_comm. apply Z.mod_mul. lia.
    + rewrite Ym. rewrite D at 1.
      rewrite <- Z.mul_assoc, Z.mul_comm, Z.div_mul by lia.
      rewrite Z.mul_comm. apply Z.mod_mul. lia.
Qed.

Lemma iter_pos_shr_1_shifted n :
  forall mrs,
    0 <= shr_m mrs ->
    shifted (Zpos n) mrs (SpecFloat.iter_pos shr_1 n mrs).
Proof.
  induction n as [n IH|n IH|]; intros mrs Hm; cbn [SpecFloat.iter_pos].
  - pose proof (shr_1_shifted mrs Hm) as S1.
    pose proof (IH _ (proj1 S1)) as S2.
    pose proof (IH _ (proj1 S2)) as S3.
    replace (Zpos n~1) with (1 + (Zpos n + Zpos n)) by lia.
    apply shifted_trans with (y := shr_1 mrs); try lia; [exact S1|].
    apply shifted_trans with (y := SpecFloat.iter_pos shr_1 n (shr_1 mrs));
      try lia;
      [exact (proj1 S1)|exact S2|exact S3].
  - pose proof (IH _ Hm) as S2.
    pose proof (IH _ (proj1 S2)) as S3.
    replace (Zpos n~0) with (Zpos n + Zpos n) by lia.
    apply shifted_trans with (y := SpecFloat.iter_pos shr_1 n mrs); try lia;
      [exact S2|exact S3].
  - apply shr_1_shifted. exact Hm.
Qed.

Lemma shifted_refl mrs : 0 <= shr_m mrs -> shifted 0 mrs mrs.
Proof.
  intros H. split; [exact H|]. split; [now rewrite Z.div_1_r|]. auto.
Qed.

Lemma shr_m_of_loc m l : shr_m (shr_record_of_loc m l) = m.
Proof. destruct l as [|[]]; reflexivity. Qed.

Lemma shr_fexp_shifted m e l :
  0 <= m ->
  exists mrs,
    shr_fexp prec emax m e l
    = (mrs, Z.max e (fexp prec emax (Zdigits2 m + e)))
    /\ shifted (Z.max e (fexp prec emax (Zdigits2 m + e)) - e)
         (shr_record_of_loc m l) mrs.
Proof.
  intros Hm. unfold shr_fexp, shr.
  assert (H0 : 0 <= shr_m (shr_record_of_loc m l))
    by (now rewrite shr_m_of_loc).
  destruct (fexp prec emax (Zdigits2 m + e) - e) as [|n|n] eqn:En.
  - exists (shr_record_of_loc m l).
    rewrite Z.max_l by lia. rewrite Z.sub_diag.
    split; [reflexivity|now apply shifted_refl].
  - exists (SpecFloat.iter_pos shr_1 n (shr_record_of_loc m l)).
    rewrite Z.max_r by lia.
    replace (e + Z.pos n) with (fexp prec emax (Zdigits2 m + e)) by lia.
    split; [reflexivity|]. rewrite En. now apply iter_pos_shr_1_shifted.
  - exists (shr_record_of_loc m l).
    rewrite Z.max_l by lia. rewrite Z.sub_diag.
    split; [reflexivity|now apply shifted_refl].
Qed.

Lemma round_nearest_even_bounds m l :
  m <= round_nearest_even m l <= m + 1
  /\ (l = loc_Exact -> round_nearest_even m l = m).
Proof.
  destruct l as [|[]]; cbn [round_nearest_even];
    try destruct (Z.even m); split; try lia; try reflexivity; discriminate.
Qed.

Lemma loc_of_exact_record mrs :
  exact_record mrs -> loc_of_shr_record mrs = loc_Exact.
Proof. destruct mrs as [m r s]. intros [H1 H2]. cbn in *. now subst. Qed.

(** The result of [binary_round_aux] on a non-negative mantissa, step
    by step: shift to the exponent [e1], round to [m2], shift again to
    the exponent [e3]. *)
Lemma binary_round_aux_steps s m e l :
  0 <= m ->
  let e1 := Z.max e (fexp prec emax (Zdigits2 m + e)) in
  exists m2,
    m / 2 ^ (e1 - e) <= m2 <= m / 2 ^ (e1 - e) + 1
    /\ (l = loc_Exact -> m mod 2 ^ (e1 - e) = 0 -> m2 = m / 2 ^ (e1 - e))
    /\ let e3 := Z.max e1 (fexp prec emax (Zdigits2 m2 + e1)) in
       binary_round_aux prec emax s m e l
       = match m2 / 2 ^ (e3 - e1) with
         | Z0 => S754_zero s
         | Zpos p => if e3 <=? emax - prec then S754_finite s p e3
                     else S754_infinity s
         | Zneg _ => S754_nan
         end.
Proof.
  intros Hm e1. unfold binary_round_aux.
  destruct (shr_fexp_shifted m e l Hm) as (mrs1 & E1 & S1 & M1 & X1).
  fold e1 in E1, M1, X1. rewrite E1. rewrite shr_m_of_loc in M1, X1.
  pose proof (round_nearest_even_bounds (shr_m mrs1)
                (loc_of_shr_record mrs1)) as [B2 X2].
  set (m2 := round_nearest_even (shr_m mrs1) (loc_of_shr_record mrs1)) in *.
  exists m2. rewrite <- M1. split; [exact B2|]. split.
  - intros -> H.
    apply X2, loc_of_exact_record, X1; [split; reflexivity|exact H].
  - destruct (shr_fexp_shifted m2 e1 loc_Exact) as (mrs3 & E3 & S3 & M3 & _);
      [lia|].
    rewrite E3. cbn [shr_m shr_record_of_loc] in M3.
    rewrite M3. reflexivity.
Qed.

(** ** Sign and magnitude of a rounded result *)

Lemma binary_round_aux_signed s m e l :
  0 <= m -> signed s (binary_round_aux prec emax s m e l).
Proof.
  intros Hm.
  destruct (binary_round_aux_steps s m e l Hm) as (m2 & [L2 _] & _ & ->).
  assert (0 <= m / 2 ^ (Z.max e (fexp prec emax (Zdigits2 m + e)) - e))
    by (apply Z.div_pos; [exact Hm|apply Z.pow_pos_nonneg; lia]).
  match goal with
  | |- context [match ?q with _ => _ end] =>
      assert (Hq : 0 <= q)
        by (apply Z.div_pos; [lia|apply Z.pow_pos_nonneg; lia]);
      destruct q; [reflexivity| |lia]
  end.
  destruct (_ <=? _); reflexivity.
Qed.

Lemma fexp_le_0 x : x <= 53 -> fexp prec emax x <= 0.
Proof. unfold fexp, emin, prec, emax. lia. Qed.

Lemma div_pow2_le m X k :
  0 <= k -> m <= X * 2 ^ k -> m / 2 ^ k <= X.
Proof.
  intros Hk H. assert (P : 0 < 2 ^ k) by (apply Z.pow_pos_nonneg; lia).
  rewrite <- (Z.div_mul X (2 ^ k)) by lia. apply Z.div_le_mono; lia.
Qed.

Lemma Zdigits2_scaled m B e :
  0 < B < 2 ^ 53 -> e <= 0 -> 0 <= m <= B * 2 ^ (- e) ->
  Zdigits2 m + e <= 53.
Proof.
  intros HB He Hm.
  assert (P : 0 < 2 ^ (- e)) by (apply Z.pow_pos_nonneg; lia).
  assert (Zdigits2 m <= 53 - e); [|lia].
  apply Zdigits2_le; [|lia]. split; [lia|].
  replace (53 - e) with (53 + - e) by lia. rewrite Z.pow_add_r by lia.
  apply Z.le_lt_trans with (B * 2 ^ (- e)); [lia|].
  apply Z.mul_lt_mono_pos_r; lia.
Qed.

Lemma binary_round_aux_within s m e B :
  0 < B < 2 ^ 53 -> e <= 0 -> 0 <= m <= B * 2 ^ (- e) ->
  within B (binary_round_aux prec emax s m e loc_Exact).
Proof.
  intros HB He Hm.
  destruct (binary_round_aux_steps s m e loc_Exact (proj1 Hm))
    as (m2 & L2 & X2 & ->).
  pose proof (fexp_le_0 _ (Zdigits2_scaled m B e HB He Hm)) as F1.
  set (e1 := Z.max e (fexp prec emax (Zdigits2 m + e))) in *.
  assert (He1 : e <= e1 <= 0) by (unfold e1; lia).
  assert (P1 : 0 < 2 ^ (e1 - e)) by (apply Z.pow_pos_nonneg; lia).
  assert (S1 : B * 2 ^ (- e) = B * 2 ^ (- e1) * 2 ^ (e1 - e)).
  { rewrite <- Z.mul_assoc, <- Z.pow_add_r by lia. do 2 f_equal. lia. }
  assert (M1 : 0 <= m / 2 ^ (e1 - e) <= B * 2 ^ (- e1)).
  { split; [apply Z.div_pos; lia|]. apply div_pow2_le; lia. }
  assert (M2 : 0 <= m2 <= B * 2 ^ (- e1)).
  { split; [lia|].
    destruct (Z.eq_dec (m / 2 ^ (e1 - e)) (B * 2 ^ (- e1))) as [E|N]; [|lia].
    rewrite X2; [lia|reflexivity|].
    pose proof (Z.mul_div_le m (2 ^ (e1 - e)) P1) as D.
    assert (Em : m = 2 ^ (e1 - e) * (m / 2 ^ (e1 - e)))
      by (rewrite E in *; lia).
    rewrite Em, Z.mul_comm. apply Z.mod_mul. lia. }
  pose proof (fexp_le_0 _ (Zdigits2_scaled m2 B e1 HB (proj2 He1) M2)) as F3.
  set (e3 := Z.max e1 (fexp prec emax (Zdigits2 m2 + e1))) in *.
  assert (He3 : e1 <= e3 <= 0) by (unfold e3; lia).
  assert (S3 : B * 2 ^ (- e1) = B * 2 ^ (- e3) * 2 ^ (e3 - e1)).
  { rewrite <- Z.mul_assoc, <- Z.pow_add_r by lia. do 2 f_equal. lia. }
  assert (M3 : m2 / 2 ^ (e3 - e1) <= B * 2 ^ (- e3))
    by (apply div_pow2_le; lia).
  destruct (m2 / 2 ^ (e3 - e1)) as [|p|p] eqn:Eq.
  - exact I.
  - replace (e3 <=? emax - prec) with true
      by (symmetry; apply Z.leb_le; unfold emax, prec; lia).
    split; [lia|exact M3].
  - assert (0 <= m2 / 2 ^ (e3 - e1))
      by (apply Z.div_pos; [lia|apply Z.pow_pos_nonneg; lia]).
    lia.
Qed.


(** ** Comparisons with 0 and 1 *)

Lemma nonneg_iff x : SFleb SF_zero x = true <-> nonneg x.
Proof.
  destruct x as [s|[]| |[] m e]; cbn; split; auto; discriminate.
Qed.

Lemma not_lt_zero x : nonneg x -> SFltb x SF_zero = false.
Proof. destruct x as [s|[]| |[] m e]; cbn; intros H; auto; contradiction. Qed.

Lemma signed_false_nonneg x : signed false x -> nonneg x.
Proof. destruct x as [s|s| |s m e]; cbn; intros H; subst; auto. Qed.

Lemma valid_finite s p e :
  valid_binary (S754_finite s p e) = true ->
  fexp prec emax (Zpos (digits2_pos p) + e) = e /\ Zpos p < 2 ^ 53.
Proof.
  cbn [SpecFloat.valid_binary]. unfold bounded, canonical_mantissa.
  intros H. apply andb_prop in H. destruct H as [H _].
  apply Z.eqb_eq in H. split; [exact H|].
  pose proof (digits2_pos_bounds p) as [_ U].
  apply Z.lt_le_trans with (1 := U). apply Z.pow_le_mono_r; [lia|].
  unfold fexp, emin, prec, emax in H. lia.
Qed.

Lemma pow2_52 : 2 ^ 52 = 4503599627370496.
Proof. reflexivity. Qed.

(** A valid positive float that compares at most 1 is at most 1. *)
Lemma finite_le_one p e :
  valid_binary (S754_finite false p e) = true ->
  e < -52 \/ (e = -52 /\ Zpos p <= 2 ^ 52) ->
  within 1 (S754_finite false p e).
Proof.
  intros V H. destruct (valid_finite _ _ _ V) as [_ U]. cbn [within].
  destruct H as [H|[-> H]].
  - split; [lia|]. rewrite Z.mul_1_l.
    apply Z.le_trans with (2 ^ 53); [lia|]. apply Z.pow_le_mono_r; lia.
  - split; [lia|]. rewrite Z.mul_1_l. exact H.
Qed.

Lemma compare_cont_Z p q : Pos.compare_cont Eq p q = (Zpos p ?= Zpos q).
Proof. reflexivity. Qed.

Lemma le_one_within x :
  valid_binary x = true -> nonneg x -> SFleb x SF_one = true -> within 1 x.
Proof.
  destruct x as [s|[]| |[] p e]; cbn [nonneg]; try contradiction;
    try (intros; exact I).
  { intros _ _ L. cbv in L. inversion L. }
  intros V _ L. apply finite_le_one; [exact V|].
  unfold SFleb, SF_one in L. cbn [SFcompare] in L.
  destruct (Z.compare_spec e (-52)) as [E|E|E];
    [right|left; exact E|inversion L].
  split; [exact E|]. rewrite compare_cont_Z in L. rewrite pow2_52.
  destruct (Z.compare_spec (Zpos p) (Zpos 4503599627370496)) as [C|C|C];
    [rewrite C; apply Z.le_refl|apply Z.lt_le_incl, C|inversion L].
Qed.

Lemma not_gt_one_within x :
  valid_binary x = true -> nonneg x -> SFltb SF_one x = false -> within 1 x.
Proof.
  destruct x as [s|[]| |[] p e]; cbn [nonneg]; try contradiction;
    try (intros; exact I).
  { intros _ _ L. cbv in L. inversion L. }
  intros V _ L. apply finite_le_one; [exact V|].
  unfold SFltb, SF_one in L. cbn [SFcompare] in L.
  destruct (Z.compare_spec (-52) e) as [E|E|E];
    [right|inversion L|left; apply Z.gt_lt, Z.lt_gt, E].
  split; [symmetry; exact E|]. rewrite compare_cont_Z in L. rewrite pow2_52.
  destruct (Z.compare_spec (Zpos 4503599627370496) (Zpos p)) as [C|C|C];
    [rewrite <- C; apply Z.le_refl|inversion L|apply Z.lt_le_incl, C].
Qed.

(** A valid float of magnitude at most 1 compares at most 1. *)
Lemma within_one_le x :
  valid_binary x = true -> within 1 x -> SFleb x SF_one = true.
Proof.
  destruct x as [s|s| |s p e]; cbn [within]; try contradiction;
    try (intros; reflexivity).
  intros V [He Hp]. destruct s; [reflexivity|].
  destruct (valid_finite _ _ _ V) as [C _].
  unfold SFleb, SF_one. cbn [SFcompare].
  rewrite Z.mul_1_l in Hp.
  destruct (Z.compare_spec e (-52)) as [E|E|E]; [|reflexivity|].
  - subst e. rewrite compare_cont_Z. change (- -52) with 52 in Hp.
    rewrite pow2_52 in Hp.
    destruct (Z.compare_spec (Zpos p) (Zpos 4503599627370496)) as [D|D|D];
      try reflexivity.
    exfalso. apply (Z.lt_irrefl (Zpos p)).
    apply Z.le_lt_trans with (1 := Hp). exact D.
  - exfalso. pose proof (digits2_pos_bounds p) as [L _].
    unfold fexp, emin, prec, emax in C.
    assert (D : Zpos (digits2_pos p) = 53) by lia. rewrite D in L.
    assert (T : 2 ^ (- e) < 2 ^ (53 - 1)) by (apply Z.pow_lt_mono_r; lia).
    apply (Z.lt_irrefl (Zpos p)).
    apply Z.le_lt_trans with (1 := Hp).
    apply Z.lt_le_trans with (1 := T). exact L.
Qed.

(** ** Aligning and rounding *)

Lemma shl_align_spec mx ex ex' :
  snd (shl_align mx ex ex') = Z.min ex ex'
  /\ Zpos (fst (shl_align mx ex ex'))
     = Zpos mx * 2 ^ (ex - snd (shl_align mx ex ex')).
Proof.
  unfold shl_align. destruct (ex' - ex) as [|d|d] eqn:E; cbn [fst snd].
  - split; [lia|]. rewrite Z.sub_diag. lia.
  - split; [lia|]. rewrite Z.sub_diag. lia.
  - split; [lia|]. replace (ex - ex') with (Zpos d) by lia.
    change (Pos.iter xO mx d) with (shift_pos d mx).
    rewrite shift_pos_correct. change (Z.pow_pos 2 d) with (2 ^ Zpos d). lia.
Qed.

Lemma binary_round_signed s mx ex :
  signed s (binary_round prec emax s mx ex).
Proof.
  unfold binary_round. destruct (shl_align _ _ _) as [mz ez].
  apply binary_round_aux_signed. lia.
Qed.

Lemma binary_round_within s mx ex B :
  0 < B < 2 ^ 53 -> ex <= 0 -> Zpos mx <= B * 2 ^ (- ex) ->
  within B (binary_round prec emax s mx ex).
Proof.
  intros HB He Hm. unfold binary_round.
  pose proof (shl_align_spec mx ex
                (fexp prec emax (Zpos (digits2_pos mx) + ex))) as [Es Em].
  destruct (shl_align _ _ _) as [mz ez]. cbn [fst snd] in Es, Em.
  assert (Hz : ez <= ex) by lia.
  apply binary_round_aux_within; [exact HB|lia|]. split; [lia|].
  rewrite Em. replace (- ez) with (- ex + (ex - ez)) by lia.
  rewrite Z.pow_add_r by lia. rewrite Z.mul_assoc.
  apply Z.mul_le_mono_nonneg_r; [apply Z.pow_nonneg; lia|exact Hm].
Qed.

(** ** Sums, differences, quotients and products *)

Lemma SFadd_nonneg x y :
  nonneg x -> nonneg y -> nonneg (SF64add x y).
Proof.
  destruct x as [sx|[]| |[] mx ex]; cbn [nonneg]; try contradiction;
    destruct y as [sy|[]| |[] my ey]; cbn [nonneg]; try contradiction;
    intros _ _; unfold SF64add; cbn [SFadd nonneg]; try exact I.
  - destruct sx, sy; exact I.
  - cbn [cond_Zopp Z.add binary_normalize].
    apply signed_false_nonneg, binary_round_signed.
Qed.

(** At most 1: of magnitude at most 1, or negative. *)
Lemma at_most_one_le x :
  valid_binary x = true -> within 1 x \/ signed true x ->
  SFleb x SF_one = true.
Proof.
  intros V [H|H]; [now apply within_one_le|].
  destruct x as [s|s| |s p e]; cbn [signed] in H; try contradiction;
    subst; reflexivity.
Qed.

Lemma SFsub_at_most_one x my ey :
  nonneg x -> within 1 x ->
  let r := SF64sub x (S754_finite false my ey) in
  within 1 r \/ signed true r.
Proof.
  destruct x as [sx|[]| |[] mx ex]; cbn [nonneg within]; try contradiction;
    intros _ W; unfold SF64sub; cbn [SFsub negb].
  - right. reflexivity.
  - destruct W as [He Hm]. cbn [cond_Zopp].
    pose proof (shl_align_spec mx ex (Z.min ex ey)) as [Es Em].
    pose proof (shl_align_spec my ey (Z.min ex ey)) as [_ Ey].
    set (a := fst (shl_align mx ex (Z.min ex ey))) in *.
    set (b := fst (shl_align my ey (Z.min ex ey))) in *.
    rewrite Es in Em.
    replace (Z.min ex (Z.min ex ey)) with (Z.min ex ey) in Em by lia.
    set (ez := Z.min ex ey) in *.
    destruct (Zpos a - Zpos b) as [|d|d] eqn:D; cbn [binary_normalize].
    + left. exact I.
    + left. apply binary_round_within; [lia|unfold ez; lia|].
      assert (Hd : Zpos d <= Zpos a) by lia.
      apply Z.le_trans with (1 := Hd). rewrite Em.
      replace (- ez) with (- ex + (ex - ez)) by lia.
      rewrite Z.pow_add_r by (unfold ez; lia). rewrite Z.mul_assoc.
      apply Z.mul_le_mono_nonneg_r;
        [apply Z.pow_nonneg; lia|exact Hm].
    + right. apply binary_round_signed.
Qed.

Lemma SFdiv_nonneg x y :
  match x with S754_zero _ | S754_finite false _ _ => True | _ => False end ->
  match y with S754_finite false _ _ | S754_infinity false => True
          | _ => False end ->
  nonneg (SF64div x y).
Proof.
  destruct x as [sx|sx| |[] mx ex]; try contradiction;
    destruct y as [sy|[]| |[] my ey]; try contradiction;
    intros _ _; unfold SF64div; cbn [SFdiv nonneg xorb]; try exact I.
  unfold SFdiv_core_binary.
  set (m' := match _ with Z0 => Zpos mx | Zpos _ => _ | Zneg _ => 0 end).
  assert (Hm : 0 <= m').
  { unfold m'. destruct (_ - _ - _) as [|d|d]; try lia.
    apply Z.shiftl_nonneg. lia. }
  pose proof (Z.div_pos m' (Zpos my) Hm ltac:(lia)) as Hq.
  unfold Z.div in Hq. destruct (Z.div_eucl m' (Zpos my)) as [q r].
  apply signed_false_nonneg, binary_round_aux_signed. exact Hq.
Qed.

Lemma SFmul_30_within x :
  nonneg x -> within 1 x ->
  let r := SF64mul (S754_finite false 8444249301319680 (-48)) x in
  nonneg r /\ within 30 r.
Proof.
  destruct x as [sx|[]| |[] mx ex]; cbn [nonneg within]; try contradiction;
    intros _ W; unfold SF64mul; cbn [SFmul xorb].
  - split; exact I.
  - destruct W as [He Hm]. split.
    + apply signed_false_nonneg, binary_round_aux_signed. lia.
    + apply binary_round_aux_within; [split; [lia|reflexivity]|lia|].
      split; [lia|]. rewrite Pos2Z.inj_mul.
      replace (- (-48 + ex)) with (48 + - ex) by lia.
      rewrite Z.pow_add_r by lia.
      change (Zpos 8444249301319680) with (30 * 2 ^ 48).
      rewrite <- !Z.mul_assoc. apply Z.mul_le_mono_nonneg_l; [lia|].
      apply Z.mul_le_mono_nonneg_l; [apply Z.pow_nonneg; lia|].
      rewrite Z.mul_1_l in Hm. exact Hm.
Qed.

Lemma int_of_spec_within B r :
  0 <= B -> nonneg r -> within B r ->
  exists n, Py.int_of_spec r = inr n /\ 0 <= n <= B.
Proof.
  intros HB.
  destruct r as [s|[]| |[] p e]; cbn [nonneg within]; try contradiction;
    intros _ W; cbn [Py.int_of_spec cond_Zopp].
  - exists 0. split; [reflexivity|lia].
  - destruct W as [He Hp]. eexists. split; [reflexivity|].
    rewrite Z.shiftl_div_pow2 by exact He. split.
    + apply Z.div_pos; [lia|apply Z.pow_pos_nonneg; lia].
    + apply div_pow2_le; [lia|exact Hp].
Qed.

(** ** From primitive floats to their specification *)

Lemma Prim2SF_0 : Prim2SF Py.f0 = SF_zero.
Proof. reflexivity. Qed.

Lemma Prim2SF_1 : Prim2SF Py.f1 = SF_one.
Proof. reflexivity. Qed.

Lemma Prim2SF_0_1 :
  Prim2SF Py.f0_1 = S754_finite false 7205759403792794 (-56).
Proof. reflexivity. Qed.

Lemma Prim2SF_30 :
  Prim2SF Py.f30 = S754_finite false 8444249301319680 (-48).
Proof. reflexivity. Qed.

Lemma ltb_leb x y : (x <? y)%float = true -> (x <=? y)%float = true.
Proof.
  rewrite ltb_spec, leb_spec. unfold SFltb, SFleb.
  destruct (SFcompare _ _) as [[]|]; intros H; try reflexivity; inversion H.
Qed.

Lemma leb_0_nonneg x : (Py.f0 <=? x)%float = true <-> nonneg (Prim2SF x).
Proof. rewrite leb_spec, Prim2SF_0. apply nonneg_iff. Qed.

Lemma leb_1_within x :
  (Py.f0 <=? x)%float = true -> (x <=? Py.f1)%float = true ->
  within 1 (Prim2SF x).
Proof.
  intros H0 H1. apply le_one_within.
  - apply Prim2SF_valid.
  - now apply leb_0_nonneg.
  - now rewrite leb_spec, Prim2SF_1 in H1.
Qed.

(** ** The volume stays in range *)

Lemma add_tenth_nonneg v :
  (Py.f0 <=? v)%float = true -> (Py.f0 <=? v + Py.f0_1)%float = true.
Proof.
  intros H. apply leb_0_nonneg. rewrite add_spec, Prim2SF_0_1.
  apply SFadd_nonneg; [now apply leb_0_nonneg|exact I].
Qed.

Lemma sub_tenth_le_one v :
  (Py.f0 <=? v)%float = true -> (v <=? Py.f1)%float = true ->
  (v - Py.f0_1 <=? Py.f1)%float = true.
Proof.
  intros H0 H1. rewrite leb_spec, Prim2SF_1.
  pose proof (Prim2SF_valid (v - Py.f0_1)) as V.
  rewrite sub_spec, Prim2SF_0_1 in *.
  apply at_most_one_le; [exact V|].
  apply SFsub_at_most_one; [now apply leb_0_nonneg|now apply leb_1_within].
Qed.

Lemma next_volume_in_range up v :
  volume_in_range v -> volume_in_range (next_volume up v).
Proof.
  intros [H0 H1]. unfold volume_in_range, next_volume, Py.min2, Py.max2.
  change 0%float with Py.f0 in *. change 1%float with Py.f1 in *.
  destruct (up && (v <? Py.f1)%float).
  - destruct (v + Py.f0_1 <? Py.f1)%float eqn:L.
    + split; [now apply add_tenth_nonneg|now apply ltb_leb].
    + split; reflexivity.
  - destruct (negb up && (Py.f0 <? v)%float); [|split; assumption].
    destruct (Py.f0 <? v - Py.f0_1)%float eqn:L.
    + split; [now apply ltb_leb|now apply sub_tenth_le_one].
    + split; reflexivity.
Qed.

Lemma volume_after_in_range ups :
  forall v, volume_in_range v -> volume_in_range (volume_after ups v).
Proof.
  unfold volume_after.
  induction ups as [|up ups IH]; intros v H; cbn [fold_left]; [exact H|].
  apply IH, next_volume_in_range, H.
Qed.

Lemma display_progress_bar_extends position m :
  exists more,
    trace (final (display_progress_bar position m)) = (trace m ++ more)%list.
Proof.
  unfold display_progress_bar. run.
  repeat (split_match; proj_simpl);
    rewrite <- ?app_assoc; eexists; try reflexivity;
    symmetry; apply app_nil_r.
Qed.

Lemma adjust_volume_sets_mixer W up m v :
  current_volume (self m) = v ->
  In (MixerSetVolume (next_volume up v))
     (trace (final (adjust_volume W up m))).
Proof.
  intros <-. unfold adjust_volume, get_current_position. run. proj_simpl.
  destruct (playing (self m)) eqn:Hp; proj_simpl;
    [destruct (paused (self m)) eqn:Hq; proj_simpl|];
    match goal with
    | |- context [display_progress_bar ?pos ?m1] =>
        destruct (display_progress_bar_extends pos m1) as [more ->]
    end;
    proj_simpl; apply in_or_app; left; apply in_or_app; right; left;
    reflexivity.
Qed.

Lemma adjust_volume_calls_in_range W ups :
  forall m,
    volume_in_range (current_volume (self m)) ->
    volume_in_range (current_volume (self (adjust_volume_calls W ups m))).
Proof.
  induction ups as [|up ups IH]; intros m H; cbn [adjust_volume_calls];
    [exact H|].
  destruct (adjust_volume_transport W up m) as (_ & _ & _ & V).
  cbv zeta in V. apply (next_volume_in_range up) in H. rewrite <- V in H.
  destruct (adjust_volume W up m); cbn [final] in H; [now apply IH|exact H].
Qed.

(** C5: from any volume in [0.0, 1.0], the volume after any sequence of
    steps up and down is in [0.0, 1.0], on the volume alone and on the
    player after the calls to [adjust_volume]; each call sets on the
    mixer the volume it leaves; ten steps up from 0.5 give exactly
    1.0. *)
Theorem C5_volume_stays_in_range v :
  volume_in_range v ->
  (forall ups, volume_in_range (volume_after ups v))
  /\ (forall W ups m,
        current_volume (self m) = v ->
        volume_in_range
          (current_volume (self (adjust_volume_calls W ups m))))
  /\ (forall W up m,
        current_volume (self m) = v ->
        current_volume (self (final (adjust_volume W up m)))
        = next_volume up v
        /\ In (MixerSetVolume (next_volume up v))
              (trace (final (adjust_volume W up m))))
  /\ volume_after (repeat true 10) Py.f0_5 = Py.f1.
Proof.
  intros H. split; [intros ups; now apply volume_after_in_range|].
  split; [intros W ups m E; apply adjust_volume_calls_in_range; now rewrite E|].
  split; [|vm_compute; reflexivity].
  intros W up m E.
  destruct (adjust_volume_transport W up m) as (_ & _ & _ & V).
  cbv zeta in V. rewrite V, E. split; [reflexivity|].
  rewrite <- E. apply adjust_volume_sets_mixer. reflexivity.
Qed.

Lemma C5_volume_stays_in_range_witness :
  volume_in_range Py.f0_5
  /\ volume_in_range (volume_after [true; true; false; true] Py.f0_5).
Proof.
  assert (H : volume_in_range Py.f0_5) by (split; reflexivity).
  split; [exact H|].
  destruct (C5_volume_stays_in_range Py.f0_5 H) as [A _]. apply A.
Defined.

(** ** The progress bar *)

Lemma Prim2SF_infinity : Prim2SF infinity = S754_infinity false.
Proof. reflexivity. Qed.

Lemma quotient_nonneg position duration :
  (Py.f0 <=? position)%float = true ->
  (position <? infinity)%float = true ->
  (Py.f0 <? duration)%float = true ->
  nonneg (Prim2SF (position / duration)).
Proof.
  rewrite leb_spec, !ltb_spec, Prim2SF_0, Prim2SF_infinity, div_spec.
  intros H0 Hf Hd. apply SFdiv_nonneg.
  - destruct (Prim2SF position) as [s|[]| |[] m e]; try exact I;
      cbv in H0, Hf; try inversion H0; inversion Hf.
  - destruct (Prim2SF duration) as [s|[]| |[] m e]; try exact I;
      cbv in Hd; inversion Hd.
Qed.

Lemma clamp_is_min q :
  nonneg (Prim2SF q) -> spec_clamp q Py.f0 Py.f1 = Py.min2 q Py.f1.
Proof.
  intros H. unfold spec_clamp, Py.min2.
  rewrite (ltb_spec q Py.f0), Prim2SF_0, (not_lt_zero _ H). reflexivity.
Qed.

Lemma filled_bounds q :
  nonneg (Prim2SF q) ->
  exists filled,
    Py.int (Py.f30 * Py.min2 q Py.f1)%float = inr filled
    /\ 0 <= filled <= 30.
Proof.
  intros H. unfold Py.min2. destruct (Py.f1 <? q)%float eqn:L.
  - exists 30. split; [reflexivity|lia].
  - unfold Py.int. rewrite mul_spec, Prim2SF_30.
    rewrite ltb_spec, Prim2SF_1 in L.
    pose proof (not_gt_one_within _ (Prim2SF_valid q) H L) as W.
    destruct (SFmul_30_within _ H W) as [N W30].
    apply int_of_spec_within; [lia|exact N|exact W30].
Qed.

Lemma progress_bar_is_spec_bar progress filled :
  Py.int (Py.f30 * progress)%float = inr filled ->
  progress_bar progress = inr (spec_bar filled).
Proof.
  intros E. unfold progress_bar, spec_bar, glyphs. rewrite E.
  destruct (filled <? 30); [reflexivity|now rewrite app_nil_r].
Qed.

Lemma spec_bar_length filled :
  0 <= filled <= 30 -> List.length (spec_bar filled) = 30%nat.
Proof.
  intros H. unfold spec_bar. rewrite length_app, repeat_length.
  destruct (filled <? 30) eqn:L.
  - apply Z.ltb_lt in L. cbn [List.length]. rewrite repeat_length. lia.
  - apply Z.ltb_ge in L. cbn [List.length]. lia.
Qed.

(** The frame a successful call draws carries the bar of its progress. *)
Lemma display_progress_bar_draws position m m' bar :
  (duration (self m) <=? Py.f0)%float = false ->
  progress_bar (Py.min2 (position / duration (self m))%float Py.f1) = inr bar ->
  display_progress_bar position m = Ok tt m' ->
  exists before t,
    trace m' = (trace m ++ before ++ [ProgressLine t; Echo ""])%list
    /\ pt_bar t = bar.
Proof.
  intros D B. unfold display_progress_bar. run. rewrite D, B.
  repeat (split_match; proj_simpl); intros H; inversion H; subst;
    proj_simpl;
    match goal with
    | |- context [((((_ ++ [?a]) ++ [?b]) ++ [ProgressLine ?t]) ++ _)%list] =>
        exists [a; b], t
    end;
    rewrite <- !app_assoc; split; reflexivity.
Qed.

Lemma positive_not_le_zero d :
  (Py.f0 <? d)%float = true -> (d <=? Py.f0)%float = false.
Proof.
  rewrite ltb_spec, leb_spec, Prim2SF_0.
  destruct (Prim2SF d) as [s|[]| |[] p e]; intros H; cbv in H;
    try inversion H; reflexivity.
Qed.

Lemma Prim2SF_minus_1 :
  Prim2SF (-1)%float = S754_finite true 4503599627370496 (-52).
Proof. reflexivity. Qed.

(** A valid negative float that compares above -1 truncates to 0. *)
Lemma int_above_minus_one x :
  valid_binary x = true -> signed true x ->
  SFltb (S754_finite true 4503599627370496 (-52)) x = true ->
  Py.int_of_spec x = inr 0.
Proof.
  destruct x as [s|s| |s p e]; cbn [signed]; try contradiction.
  - reflexivity.
  - intros _ -> L. cbv in L. inversion L.
  - intros V -> L. destruct (valid_finite _ _ _ V) as [_ U].
    unfold SFltb in L. cbn [SFcompare] in L.
    assert (H : e < 0 /\ Zpos p < 2 ^ (- e)).
    { destruct (Z.compare_spec (-52) e) as [E|E|E].
      - rewrite compare_cont_Z in L. subst e. split; [lia|].
        change (- -52) with 52. rewrite pow2_52.
        destruct (Z.compare_spec (Zpos 4503599627370496) (Zpos p))
          as [C|C|C]; cbn [CompOpp] in L; [inversion L|inversion L|exact C].
      - inversion L.
      - split; [lia|]. apply Z.lt_le_trans with (1 := U).
        apply Z.pow_le_mono_r; lia. }
    destruct H as [He Hp]. cbn [Py.int_of_spec cond_Zopp].
    rewrite Z.shiftl_div_pow2 by lia.
    rewrite Z.div_small by lia. reflexivity.
Qed.

Lemma SFmul_30_signed s m e :
  signed s (SF64mul (S754_finite false 8444249301319680 (-48))
              (S754_finite s m e)).
Proof.
  unfold SF64mul. cbn [SFmul xorb]. apply binary_round_aux_signed. lia.
Qed.

(** Thirty times a number that is not negative compares above -1. *)
Lemma above_minus_one_nonneg q :
  nonneg (Prim2SF q) -> (-1 <? Py.f30 * q)%float = true.
Proof.
  intros N. rewrite ltb_spec, mul_spec, Prim2SF_30, Prim2SF_minus_1.
  destruct (Prim2SF q) as [s|[]| |[] m e]; cbn [nonneg] in N;
    try contradiction; try reflexivity.
  pose proof (SFmul_30_signed false m e) as S.
  destruct (SF64mul _ _) as [s'|s'| |s' p' e']; cbn [signed] in S;
    try contradiction; subst; reflexivity.
Qed.

(** Where thirty times the quotient compares above -1, the code's
    count of filled cells is the specification's, and lies in 0..30. *)
Lemma filled_is_spec_filled position total :
  (-1 <? Py.f30 * (position / total))%float = true ->
  exists filled,
    spec_filled position total = inr filled
    /\ 0 <= filled <= 30
    /\ Py.int (Py.f30 * Py.min2 (position / total) Py.f1)%float = inr filled.
Proof.
  set (q := (position / total)%float). intros H. unfold spec_filled. fold q.
  destruct (Prim2SF q) as [s|s| |s m e] eqn:Q.
  - assert (N : nonneg (Prim2SF q)) by (rewrite Q; exact I).
    destruct (filled_bounds _ N) as (filled & E & B).
    exists filled. rewrite (clamp_is_min _ N). auto.
  - destruct s.
    + rewrite ltb_spec, mul_spec, Q in H. cbv in H. inversion H.
    + assert (N : nonneg (Prim2SF q)) by (rewrite Q; exact I).
      destruct (filled_bounds _ N) as (filled & E & B).
      exists filled. rewrite (clamp_is_min _ N). auto.
  - rewrite ltb_spec, mul_spec, Q in H. cbv in H. inversion H.
  - destruct s.
    + exists 0.
      assert (L0 : (q <? Py.f0)%float = true)
        by (rewrite ltb_spec, Q; reflexivity).
      assert (L1 : (Py.f1 <? q)%float = false)
        by (rewrite ltb_spec, Q; reflexivity).
      unfold spec_clamp, Py.min2. rewrite L0, L1.
      split; [reflexivity|]. split; [lia|].
      unfold Py.int. apply int_above_minus_one.
      * apply Prim2SF_valid.
      * rewrite mul_spec, Prim2SF_30, Q. apply SFmul_30_signed.
      * rewrite ltb_spec, Prim2SF_minus_1 in H. exact H.
    + assert (N : nonneg (Prim2SF q)) by (rewrite Q; exact I).
      destruct (filled_bounds _ N) as (filled & E & B).
      exists filled. rewrite (clamp_is_min _ N). auto.
Qed.

(** C1, as the code has it: for a positive duration, wherever thirty
    times the quotient [position / duration] is above -1 (so for every
    finite position that is not negative), the bar is 30 cells wide:
    [filled = floor(30 * clamp(position/duration, 0, 1))] cells of the
    solid glyph, then, when [filled < 30], one cell of the head glyph,
    which differs from the solid one, and the remaining cells of the
    empty glyph; this is the bar of the frame that
    [display_progress_bar] prints.  For duration 100 and position 50 the
    frame shows 50 percent, 15 solid cells, the head and 14 empty
    cells. *)
Theorem C1_progress_bar position total :
  (0 <? total)%float = true ->
  ((0 <=? position)%float = true ->
   (position <? infinity)%float = true ->
   (-1 <? 30 * (position / total))%float = true)
  /\ ((-1 <? 30 * (position / total))%float = true ->
      exists filled,
        spec_filled position total = inr filled
        /\ 0 <= filled <= 30
        /\ progress_bar (Py.min2 (position / total)%float 1%float)
           = inr (spec_bar filled)
        /\ List.length (spec_bar filled) = 30%nat
        /\ forall m m',
            duration (self m) = total ->
            display_progress_bar position m = Ok tt m' ->
            exists before t,
              trace m' = (trace m ++ before ++ [ProgressLine t; Echo ""])%list
              /\ pt_bar t = spec_bar filled)
  /\ head_glyph <> solid_glyph
  /\ exists m',
      display_progress_bar 50 sample_playing = Ok tt m'
      /\ trace m'
         = (trace sample_playing
            ++ [CursorUpClear; TrackName "song.mp3";
                ProgressLine
                  {| pt_percentage := 50;
                     pt_bar := repeat solid_glyph 15 ++ [head_glyph]
                               ++ repeat empty_glyph 14;
                     pt_current_time := "0:00:50";
                     pt_total_time := "0:01:40";
                     pt_volume := 50;
                     pt_paused := false |};
                Echo ""])%list.
Proof.
  intros Hd. split; [|split; [|split; [discriminate|]]].
  - intros H0 Hf. apply above_minus_one_nonneg.
    now apply quotient_nonneg.
  - intros H. destruct (filled_is_spec_filled position total H)
      as (filled & F & B & E).
    exists filled.
    pose proof (progress_bar_is_spec_bar _ _ E) as P.
    split; [exact F|]. split; [exact B|]. split; [exact P|].
    split; [now apply spec_bar_length|].
    intros m m' <- R.
    eapply display_progress_bar_draws; eauto.
    now apply positive_not_le_zero.
  - eexists. split; vm_compute; reflexivity.
Qed.

Lemma C1_progress_bar_witness :
  (0 <? 100)%float = true
  /\ (-1 <? 30 * (-3 / 100))%float = true
  /\ progress_bar (Py.min2 (-3 / 100)%float 1%float) = inr (spec_bar 0)
  /\ progress_bar (Py.min2 (50 / 100)%float 1%float) = inr (spec_bar 15).
Proof.
  split; [reflexivity|]. split; [reflexivity|].
  destruct (C1_progress_bar (-3) 100 eq_refl) as (_ & A & _).
  destruct (A eq_refl) as (filled & F & _ & P & _).
  assert (E : filled = 0) by (vm_compute in F; congruence).
  rewrite <- E. split; [exact P|].
  vm_compute. reflexivity.
Defined.

(** C1 as stated fails: nothing clamps the progress at 0.  For
    position -50 and duration 100 the specification's [filled] is 0, the
    code's is -15, and the bar is 45 cells wide. *)
Lemma C1_counterexample :
  (0 <? 100)%float = true
  /\ spec_filled (-50) 100 = inr 0
  /\ Py.int (Py.f30 * Py.min2 (-50 / 100) 1)%float = inr (-15)
  /\ exists bar,
      progress_bar (Py.min2 (-50 / 100)%float 1%float) = inr bar
      /\ List.length bar = 45%nat.
Proof.
  split; [reflexivity|]. split; [reflexivity|]. split; [reflexivity|].
  eexists. split; [vm_compute; reflexivity|reflexivity].
Qed.

(** * Further properties *)

(** ** Percentages *)

Lemma Prim2SF_100 :
  Prim2SF Py.f100 = S754_finite false 7036874417766400 (-46).
Proof. reflexivity. Qed.

Lemma SFmul_100_within x :
  nonneg x -> within 1 x ->
  let r := SF64mul x (S754_finite false 7036874417766400 (-46)) in
  nonneg r /\ within 100 r.
Proof.
  destruct x as [sx|[]| |[] mx ex]; cbn [nonneg within]; try contradiction;
    intros _ W; unfold SF64mul; cbn [SFmul xorb].
  - split; exact I.
  - destruct W as [He Hm]. split.
    + apply signed_false_nonneg, binary_round_aux_signed. lia.
    + apply binary_round_aux_within; [split; [lia|reflexivity]|lia|].
      split; [lia|]. rewrite Pos2Z.inj_mul.
      replace (- (ex + -46)) with (46 + - ex) by lia.
      rewrite Z.pow_add_r by lia.
      change (Zpos 7036874417766400) with (100 * 2 ^ 46).
      rewrite Z.mul_comm, <- !Z.mul_assoc.
      apply Z.mul_le_mono_nonneg_l; [lia|].
      apply Z.mul_le_mono_nonneg_l; [apply Z.pow_nonneg; lia|].
      rewrite Z.mul_1_l in Hm. exact Hm.
Qed.

Lemma percent_bounds x :
  nonneg (Prim2SF x) -> within 1 (Prim2SF x) ->
  exists n, Py.int (x * Py.f100)%float = inr n /\ 0 <= n <= 100.
Proof.
  intros N W. unfold Py.int. rewrite mul_spec, Prim2SF_100.
  destruct (SFmul_100_within _ N W) as [N' W'].
  apply int_of_spec_within; [lia|exact N'|exact W'].
Qed.

Lemma percentage_bounds q :
  nonneg (Prim2SF q) ->
  exists n,
    Py.int (Py.min2 q Py.f1 * Py.f100)%float = inr n /\ 0 <= n <= 100.
Proof.
  intros H. unfold Py.min2. destruct (Py.f1 <? q)%float eqn:L.
  - exists 100. split; [reflexivity|lia].
  - rewrite ltb_spec, Prim2SF_1 in L. apply percent_bounds; [exact H|].
    exact (not_gt_one_within _ (Prim2SF_valid q) H L).
Qed.

Lemma volume_percent_bounds v :
  volume_in_range v ->
  exists n, Py.int (v * Py.f100)%float = inr n /\ 0 <= n <= 100.
Proof.
  intros [H0 H1]. apply percent_bounds.
  - now apply leb_0_nonneg.
  - now apply leb_1_within.
Qed.

Lemma int_finite x n : Py.int x = inr n -> (x <? infinity)%float = true.
Proof.
  unfold Py.int. rewrite ltb_spec, Prim2SF_infinity.
  destruct (Prim2SF x) as [s|s| |s m e]; cbn [Py.int_of_spec]; intros H;
    inversion H; destruct s; reflexivity.
Qed.

Lemma format_time_int x s :
  format_time x = inr s -> exists n, Py.int x = inr n.
Proof.
  unfold format_time. destruct (Py.int x) as [e|n]; intros H; [inversion H|].
  now exists n.
Qed.

(** ** A frame, when everything is in order *)

Lemma display_progress_bar_returns position m path current total :
  current_track (self m) = Some path ->
  (0 <=? position)%float = true ->
  (0 <? duration (self m))%float = true ->
  format_time position = inr current ->
  format_time (duration (self m)) = inr total ->
  volume_in_range (current_volume (self m)) ->
  exists percentage filled volume,
    Py.int (Py.min2 (position / duration (self m)) Py.f1 * Py.f100)%float
    = inr percentage
    /\ Py.int (Py.f30 * Py.min2 (position / duration (self m)) Py.f1)%float
       = inr filled
    /\ (0 <= percentage <= 100 /\ 0 <= filled <= 30 /\ 0 <= volume <= 100)
    /\ display_progress_bar position m
       = Ok tt
           {| self := set_first_display false (self m);
              clock_reads := clock_reads m;
              trace :=
                (trace m
                 ++ [frame_prefix (first_display (self m));
                     TrackName (Py.basename path);
                     ProgressLine
                       {| pt_percentage := percentage;
                          pt_bar := spec_bar filled;
                          pt_current_time := current;
                          pt_total_time := total;
                          pt_volume := volume;
                          pt_paused := paused (self m) |};
                     Echo ""])%list |}.
Proof.
  intros Ht H0 Hd Hc Htot Hv.
  destruct (format_time_int _ _ Hc) as [n Hn].
  pose proof (quotient_nonneg position (duration (self m)) H0
                (int_finite _ _ Hn) Hd) as N.
  destruct (percentage_bounds _ N) as (percentage & Ep & Bp).
  destruct (filled_bounds _ N) as (filled & Ef & Bf).
  destruct (volume_percent_bounds _ Hv) as (volume & Ev & Bv).
  exists percentage, filled, volume.
  split; [exact Ep|]. split; [exact Ef|]. split; [auto|].
  unfold display_progress_bar. run.
  rewrite (positive_not_le_zero _ Hd), Ep, Hc, Htot.
  rewrite (progress_bar_is_spec_bar _ _ Ef), Ev.
  destruct (first_display (self m)) eqn:F; proj_simpl; rewrite Ht;
    proj_simpl; rewrite <- !app_assoc; cbn [app frame_prefix].
  - reflexivity.
  - replace (set_first_display false (self m)) with (self m); [reflexivity|].
    destruct (self m); cbn in *. now subst.
Qed.

(** X1: with a track loaded, a positive duration, a position that is
    not negative, times that can be printed and a volume in [0.0, 1.0],
    [display_progress_bar] returns normally; it prints the blank line or
    the cursor movement, then exactly the three lines of a frame, whose
    percentage is in 0..100, whose bar is the 30-cell bar and whose
    volume is in 0..100; the only field it writes is [first_display]. *)
Theorem display_progress_bar_draws_frame position m path current total :
  current_track (self m) = Some path ->
  (0 <=? position)%float = true ->
  (0 <? duration (self m))%float = true ->
  format_time position = inr current ->
  format_time (duration (self m)) = inr total ->
  volume_in_range (current_volume (self m)) ->
  exists percentage filled volume,
    0 <= percentage <= 100 /\ 0 <= filled <= 30 /\ 0 <= volume <= 100
    /\ List.length (spec_bar filled) = 30%nat
    /\ display_progress_bar position m
       = Ok tt
           {| self := set_first_display false (self m);
              clock_reads := clock_reads m;
              trace :=
                (trace m
                 ++ [frame_prefix (first_display (self m));
                     TrackName (Py.basename path);
                     ProgressLine
                       {| pt_percentage := percentage;
                          pt_bar := spec_bar filled;
                          pt_current_time := current;
                          pt_total_time := total;
                          pt_volume := volume;
                          pt_paused := paused (self m) |};
                     Echo ""])%list |}.
Proof.
  intros Ht H0 Hd Hc Htot Hv.
  destruct (display_progress_bar_returns position m path current total
              Ht H0 Hd Hc Htot Hv)
    as (percentage & filled & volume & _ & _ & (Bp & Bf & Bv) & E).
  exists percentage, filled, volume.
  split; [exact Bp|]. split; [exact Bf|]. split; [exact Bv|].
  split; [now apply spec_bar_length|exact E].
Qed.

Lemma display_progress_bar_draws_frame_witness :
  current_track (self sample_playing) = Some "song.mp3"
  /\ (0 <=? 50)%float = true
  /\ format_time 50 = inr "0:00:50"
  /\ exists m',
      display_progress_bar 50 sample_playing = Ok tt m'
      /\ first_display (self m') = false.
Proof.
  assert (Ht : current_track (self sample_playing) = Some "song.mp3")
    by (vm_compute; reflexivity).
  assert (Hd : (0 <? duration (self sample_playing))%float = true)
    by (vm_compute; reflexivity).
  assert (Htot : format_time (duration (self sample_playing)) = inr "0:01:40")
    by (vm_compute; reflexivity).
  assert (Hv : volume_in_range (current_volume (self sample_playing)))
    by (split; vm_compute; reflexivity).
  split; [exact Ht|]. split; [reflexivity|]. split; [vm_compute; reflexivity|].
  destruct (display_progress_bar_draws_frame 50 sample_playing "song.mp3"
              "0:00:50" "0:01:40" Ht eq_refl Hd eq_refl Htot Hv)
    as (p & f & v & _ & _ & _ & _ & E).
  eexists. split; [exact E|reflexivity].
Defined.

(** ** What the renderer never does *)

Lemma int_render_error x e : Py.int x = inl e -> is_render_error e = true.
Proof.
  unfold Py.int, Py.int_of_spec.
  destruct (Prim2SF x); intros H; inversion H; reflexivity.
Qed.

Lemma format_time_render_error x e :
  format_time x = inl e -> is_render_error e = true.
Proof.
  unfold format_time, Py.str_timedelta_seconds.
  destruct (Py.int x) eqn:Hi.
  - intros H; inversion H; subst. eapply int_render_error; eauto.
  - destruct (_ <? _); intros H; inversion H; reflexivity.
Qed.

Lemma progress_bar_render_error x e :
  progress_bar x = inl e -> is_render_error e = true.
Proof.
  unfold progress_bar. destruct (Py.int _) eqn:Hi; intros H; inversion H.
  subst. eapply int_render_error; eauto.
Qed.

Lemma display_progress_bar_render_error position m e m' :
  display_progress_bar position m = Raise e m' -> is_render_error e = true.
Proof.
  unfold display_progress_bar. run.
  repeat (split_match; proj_simpl); intros H; inversion H; subst;
    eauto using int_render_error, format_time_render_error,
      progress_bar_render_error.
Qed.

Lemma display_progress_bar_output position m :
  exists more,
    trace (final (display_progress_bar position m)) = (trace m ++ more)%list
    /\ forallb is_terminal_output more = true.
Proof.
  unfold display_progress_bar. run.
  repeat (split_match; proj_simpl);
    rewrite <- ?app_assoc; eexists;
    (split; [try reflexivity; symmetry; apply app_nil_r|reflexivity]).
Qed.

Lemma display_progress_bar_first_display position m :
  first_display (self (final (display_progress_bar position m))) = true ->
  first_display (self m) = true.
Proof.
  unfold display_progress_bar. run.
  repeat (split_match; proj_simpl); try discriminate; auto;
    intros _; now destruct (first_display (self m)).
Qed.

(** X2: whatever its arguments and whether it returns or raises,
    [display_progress_bar] leaves every field of the player but
    [first_display] as it was, never sets [first_display], takes no clock
    reading, only appends terminal output to what was printed (it never
    calls the mixer), and raises nothing but [ValueError],
    [OverflowError] or [TypeError]. *)
Theorem display_progress_bar_only_draws position m :
  same_transport (self m) (self (final (display_progress_bar position m)))
  /\ (first_display (self (final (display_progress_bar position m))) = true ->
      first_display (self m) = true)
  /\ clock_reads (final (display_progress_bar position m)) = clock_reads m
  /\ (exists more,
         trace (final (display_progress_bar position m))
         = (trace m ++ more)%list
         /\ forallb is_terminal_output more = true)
  /\ forall e m',
      display_progress_bar position m = Raise e m' ->
      is_render_error e = true.
Proof.
  destruct (display_progress_bar_frame position m) as [T C].
  split; [exact T|]. split; [apply display_progress_bar_first_display|].
  split; [exact C|]. split; [apply display_progress_bar_output|].
  apply display_progress_bar_render_error.
Qed.

(** ** Starting a track *)

Lemma zero_quotient d : (Py.f0 <? d)%float = true -> (Py.f0 / d)%float = Py.f0.
Proof.
  intros H. apply Prim2SF_inj. rewrite div_spec, Prim2SF_0.
  rewrite ltb_spec, Prim2SF_0 in H.
  destruct (Prim2SF d) as [s|[]| |[] p e]; cbv in H; try inversion H;
    reflexivity.
Qed.

Lemma format_time_zero : format_time Py.f0 = inr "0:00:00".
Proof. vm_compute. reflexivity. Qed.

(** X3: when the mixer accepts [path] and mutagen gives it a positive
    duration that can be printed, [play_file], called with a volume in
    [0.0, 1.0], returns normally: it loads and starts the track, makes it
    the current one, sets playing, clears paused, takes one clock reading
    as the start time, resets the pause accumulators, and prints the
    first frame, preceded by a blank line, at 0 percent and 0:00:00 with
    the head of the bar in the first cell. *)
Theorem play_file_starts_track W path m d total :
  playback_error W path = None ->
  mutagen_length W path = Some d ->
  (0 <? d)%float = true ->
  format_time d = inr total ->
  volume_in_range (current_volume (self m)) ->
  exists volume,
    0 <= volume <= 100
    /\ play_file W path m
       = Ok tt
           {| self := set_first_display false
                        (started path d (clock W (clock_reads m)) (self m));
              clock_reads := S (clock_reads m);
              trace :=
                (trace m
                 ++ [MixerLoad path; MixerPlay; Echo "";
                     TrackName (Py.basename path);
                     ProgressLine
                       {| pt_percentage := 0;
                          pt_bar := head_glyph :: repeat empty_glyph 29;
                          pt_current_time := "0:00:00";
                          pt_total_time := total;
                          pt_volume := volume;
                          pt_paused := false |};
                     Echo ""])%list |}.
Proof.
  intros He Hm Hd Ht Hv. unfold playback_error in He.
  pose proof (mutagen_length_info W path d Hm) as F. rewrite F in He.
  assert (P : forall msg, mutagen_file W path <> FileRaises msg)
    by (intros msg; rewrite F; discriminate).
  apply (play_file_cases W path m) in P.
  unfold metadata_duration in P. rewrite Hm in P.
  destruct (load_error W path); [discriminate|]. rewrite He in P.
  set (m0 := {| self := started path d (clock W (clock_reads m)) (self m);
                clock_reads := S (clock_reads m);
                trace := ((trace m ++ [MixerLoad path]) ++ [MixerPlay])%list |})
    in P.
  destruct (display_progress_bar_returns Py.f0 m0 path "0:00:00" total)
    as (percentage & filled & volume & Ep & Ef & (_ & _ & Bv) & E);
    try reflexivity; try assumption.
  exists volume. split; [exact Bv|]. rewrite P, E.
  cbn [m0 self duration started] in Ep, Ef.
  rewrite (zero_quotient _ Hd) in Ep, Ef.
  assert (percentage = 0) by (vm_compute in Ep; congruence).
  assert (filled = 0) by (vm_compute in Ef; congruence).
  subst. cbn [m0 self clock_reads trace first_display started
              frame_prefix paused].
  rewrite <- !app_assoc. reflexivity.
Qed.

Lemma play_file_starts_track_witness :
  playback_error sample_world "song.mp3" = None
  /\ mutagen_length sample_world "song.mp3" = Some 100%float
  /\ format_time 100 = inr "0:01:40"
  /\ exists m',
      play_file sample_world "song.mp3" MusicPlayer_init = Ok tt m'
      /\ playing (self m') = true
      /\ start_time (self m') = 1000%float.
Proof.
  split; [reflexivity|]. split; [reflexivity|].
  split; [vm_compute; reflexivity|].
  destruct (play_file_starts_track sample_world "song.mp3" MusicPlayer_init
              100 "0:01:40" eq_refl eq_refl eq_refl)
    as (volume & _ & E).
  - vm_compute. reflexivity.
  - split; reflexivity.
  - eexists. split; [exact E|]. split; reflexivity.
Defined.

(** ** A volume key when no track was ever loaded *)

(** X4: when loading or starting a track raises [pygame.error] on a
    player that has no current track and is not playing, and mutagen
    gave that track a positive duration that can be printed,
    [play_file] returns after printing the error, but the next call to
    [adjust_volume] raises [TypeError]: it sets the volume on the mixer,
    prints what precedes a frame and then fails on the name
    of the missing track.  In the keyboard loop the [+] and [-] keys end
    the same way.  (On a new player the frame is the first one, and the
    line printed is the blank line.) *)
Theorem volume_key_after_failed_first_load W path msg d total up m :
  current_track (self m) = None ->
  playing (self m) = false ->
  playback_error W path = Some msg ->
  mutagen_length W path = Some d ->
  (0 <? d)%float = true ->
  format_time d = inr total ->
  exists m1 m2,
    play_file W path m = Ok tt m1
    /\ adjust_volume W up m1 = Raise Py.TypeError m2
    /\ (exists before,
           trace m2
           = (trace m ++ before
              ++ [error_line msg;
                  MixerSetVolume (next_volume up (current_volume (self m)));
                  frame_prefix (first_display (self m))])%list)
    /\ forall music_files current_index rest,
        handle_keyboard_input W music_files current_index
          ((if up then "+" else "-")%char :: rest) m1
        = Raised Py.TypeError rest m2.
Proof.
  intros Ht Hp He Hm Hd Hf.
  destruct (play_file_error W path msg m He) as [before P].
  unfold metadata_duration in P. rewrite Hm in P.
  eexists. eexists. split; [exact P|].
  assert (A : forall m1 : machine,
             current_track (self m1) = None -> playing (self m1) = false ->
             duration (self m1) = d ->
             adjust_volume W up m1
             = Raise Py.TypeError
                 {| self := set_first_display false
                              (set_current_volume
                                 (next_volume up (current_volume (self m1)))
                                 (self m1));
                    clock_reads := clock_reads m1;
                    trace :=
                      (trace m1
                       ++ [MixerSetVolume
                             (next_volume up (current_volume (self m1)));
                           frame_prefix (first_display (self m1))])%list |}).
  { intros m1 Ht1 Hp1 Hd1.
    unfold adjust_volume, get_current_position, display_progress_bar. run.
    proj_simpl. rewrite Hp1. proj_simpl. rewrite Hd1.
    rewrite (positive_not_le_zero _ Hd), (zero_quotient _ Hd).
    change (Py.int (Py.min2 Py.f0 Py.f1 * Py.f100)) with (@inr Py.exn Z 0).
    rewrite format_time_zero, Hf.
    destruct (first_display (self m1)) eqn:F; proj_simpl; rewrite Ht1;
      proj_simpl; rewrite <- !app_assoc; cbn [app frame_prefix].
    - reflexivity.
    - replace (set_first_display false
                 (set_current_volume
                    (next_volume up (current_volume (self m1))) (self m1)))
        with (set_current_volume
                (next_volume up (current_volume (self m1))) (self m1));
        [reflexivity|].
      destruct (self m1); cbn in *. now subst. }
  set (m1 := {| self := set_duration d (self m);
                clock_reads := clock_reads m;
                trace := (trace m ++ before ++ [error_line msg])%list |}).
  specialize (A m1 Ht Hp eq_refl). split; [exact A|]. split.
  - exists before. cbn [trace m1 self current_volume set_duration
                        first_display].
    rewrite <- !app_assoc. reflexivity.
  - intros music_files current_index rest.
    destruct up; cbn [handle_keyboard_input]; cbn [Ascii.eqb Bool.eqb];
      rewrite A; reflexivity.
Qed.

Lemma volume_key_after_failed_first_load_witness :
  playback_error sample_world "broken.ogg" = Some "Unrecognized audio format"
  /\ mutagen_length sample_world "broken.ogg" = Some 100%float
  /\ exists m,
      main sample_world (IsDir ["broken.ogg"; "song.mp3"]) ["+"%char]
      = Raised Py.TypeError [] m.
Proof.
  split; [reflexivity|]. split; [reflexivity|].
  destruct (volume_key_after_failed_first_load sample_world "broken.ogg"
              "Unrecognized audio format" 100 "0:01:40" true
              MusicPlayer_init eq_refl eq_refl eq_refl eq_refl eq_refl)
    as (m1 & m2 & _ & _ & _ & _).
  - vm_compute. reflexivity.
  - eexists. vm_compute. reflexivity.
Defined.

(** ** Pausing and resuming *)

Lemma pause_pausing W m :
  playing (self m) = true -> paused (self m) = false ->
  pause W m
  = display_progress_bar (pause_position (self m))
      {| self := set_pause_position (pause_position (self m))
                   (set_pause_start (clock W (clock_reads m))
                      (set_paused true (self m)));
         clock_reads := S (clock_reads m);
         trace := (trace m ++ [MixerPause])%list |}.
Proof.
  intros Hp Hq. unfold pause, get_current_position. run. proj_simpl.
  rewrite Hp, Hq. proj_simpl. rewrite Hp. proj_simpl. reflexivity.
Qed.

Lemma pause_resuming W m :
  playing (self m) = true -> paused (self m) = true ->
  pause W m
  = display_progress_bar
      (clock W (S (clock_reads m)) - start_time (self m)
       - (total_pause_time (self m)
          + (clock W (clock_reads m) - pause_start (self m))))%float
      {| self := set_total_pause_time
                   (total_pause_time (self m)
                    + (clock W (clock_reads m) - pause_start (self m)))%float
                   (set_paused false (self m));
         clock_reads := S (S (clock_reads m));
         trace := (trace m ++ [MixerUnpause])%list |}.
Proof.
  intros Hp Hq. unfold pause, get_current_position. run. proj_simpl.
  rewrite Hp, Hq. proj_simpl. rewrite Hp. proj_simpl. reflexivity.
Qed.

Lemma mixer_calls_app a b :
  mixer_calls (a ++ b) = (mixer_calls a ++ mixer_calls b)%list.
Proof. apply filter_app. Qed.

Lemma mixer_calls_output more :
  forallb is_terminal_output more = true -> mixer_calls more = [].
Proof.
  induction more as [|e more IH]; [reflexivity|]. cbn [forallb mixer_calls filter].
  intros H. apply andb_prop in H. destruct H as [He Hm]. rewrite He.
  cbn [negb]. apply IH, Hm.
Qed.

Ltac proj_simpl_all :=
  cbn [final self clock_reads trace set_first_display set_current_track
       set_playing set_current_volume set_paused set_duration set_start_time
       set_pause_start set_total_pause_time set_pause_position
       current_track playing current_volume paused duration start_time
       pause_start total_pause_time pause_position first_display
       negb andb orb] in *.

(** What a call that ends by drawing a frame leaves behind. *)
Lemma after_display position m :
  same_transport (self m) (self (final (display_progress_bar position m)))
  /\ clock_reads (final (display_progress_bar position m)) = clock_reads m
  /\ mixer_calls (trace (final (display_progress_bar position m)))
     = mixer_calls (trace m).
Proof.
  destruct (display_progress_bar_frame position m) as [T C].
  destruct (display_progress_bar_output position m) as (more & E & O).
  split; [exact T|]. split; [exact C|].
  rewrite E, mixer_calls_app, (mixer_calls_output _ O). apply app_nil_r.
Qed.

(** X5: pausing a playing track and then resuming it.  The first call
    reads the clock once, as the instant of the pause, sets paused and
    calls the mixer's pause; the second reads the clock twice, adds the
    time between the two instants to [total_pause_time], clears paused
    and calls the mixer's unpause; the start time and the playing flag
    are never touched, and the next position query subtracts the time
    spent paused. *)
Theorem pause_then_resume W m :
  playing (self m) = true ->
  paused (self m) = false ->
  let k := clock_reads m in
  let m1 := final (pause W m) in
  let m2 := final (pause W m1) in
  let spent := (total_pause_time (self m)
                + (clock W (S k) - clock W k))%float in
  (playing (self m1) = true /\ paused (self m1) = true
   /\ pause_start (self m1) = clock W k
   /\ total_pause_time (self m1) = total_pause_time (self m)
   /\ clock_reads m1 = S k)
  /\ (playing (self m2) = true /\ paused (self m2) = false
      /\ start_time (self m2) = start_time (self m)
      /\ total_pause_time (self m2) = spent
      /\ clock_reads m2 = S (S (S k)))
  /\ mixer_calls (trace m2)
     = (mixer_calls (trace m) ++ [MixerPause; MixerUnpause])%list
  /\ exists m3,
      get_current_position W m2
      = Ok (clock W (S (S (S k))) - start_time (self m) - spent)%float m3.
Proof.
  intros Hp Hq k m1 m2 spent.
  assert (S1 : (playing (self m1) = true /\ paused (self m1) = true
                /\ pause_start (self m1) = clock W k
                /\ total_pause_time (self m1) = total_pause_time (self m)
                /\ clock_reads m1 = S k)
               /\ start_time (self m1) = start_time (self m)
               /\ mixer_calls (trace m1)
                  = (mixer_calls (trace m) ++ [MixerPause])%list).
  { unfold m1. rewrite (pause_pausing W m Hp Hq).
    match goal with
    | |- context [display_progress_bar ?pos ?m0] =>
        destruct (after_display pos m0)
          as ((T1 & T2 & T3 & T4 & T5 & T6 & T7 & T8 & T9) & C & X)
    end.
    proj_simpl_all. rewrite X, mixer_calls_app. unfold k.
    repeat split; congruence. }
  destruct S1 as ((Hp1 & Hq1 & Hs1 & Ht1 & Hc1) & Hst1 & Hx1).
  assert (S2 : (playing (self m2) = true /\ paused (self m2) = false
                /\ start_time (self m2) = start_time (self m)
                /\ total_pause_time (self m2) = spent
                /\ clock_reads m2 = S (S (S k)))
               /\ mixer_calls (trace m2)
                  = (mixer_calls (trace m) ++ [MixerPause; MixerUnpause])%list).
  { unfold m2. rewrite (pause_resuming W m1 Hp1 Hq1).
    match goal with
    | |- context [display_progress_bar ?pos ?m0] =>
        destruct (after_display pos m0)
          as ((T1 & T2 & T3 & T4 & T5 & T6 & T7 & T8 & T9) & C & X)
    end.
    proj_simpl_all. rewrite X, mixer_calls_app, Hx1, <- app_assoc.
    cbn [app mixer_calls filter is_terminal_output negb].
    unfold spent. rewrite <- Ht1, <- Hs1, <- Hst1, <- Hc1.
    repeat split; congruence. }
  destruct S2 as ((Hp2 & Hq2 & Hst2 & Ht2 & Hc2) & Hx2).
  split; [repeat split; assumption|]. split; [repeat split; assumption|].
  split; [exact Hx2|].
  rewrite get_current_position_cases, Hp2, Hq2, Hst2, Ht2, Hc2.
  cbn [negb]. eexists. reflexivity.
Qed.

Lemma pause_then_resume_witness :
  playing (self sample_playing) = true
  /\ paused (self sample_playing) = false
  /\ total_pause_time
       (self (final (pause sample_world
                       (final (pause sample_world sample_playing)))))
     = 10%float.
Proof.
  assert (Hp : playing (self sample_playing) = true)
    by (vm_compute; reflexivity).
  assert (Hq : paused (self sample_playing) = false)
    by (vm_compute; reflexivity).
  split; [exact Hp|]. split; [exact Hq|].
  destruct (pause_then_resume sample_world sample_playing Hp Hq)
    as (_ & (_ & _ & _ & T & _) & _).
  rewrite T. vm_compute. reflexivity.
Defined.

(** ** Stopping *)

(** X6: [stop] never raises.  On a playing player it calls the mixer's
    stop once and clears both flags, touching nothing else; on a player
    that is not playing it does nothing at all, so a second [stop] is a
    no-op; and after [stop] the position query answers 0 without
    reading the clock. *)
Theorem stop_is_idempotent m :
  (if playing (self m)
   then stop m
        = Ok tt {| self := set_paused false (set_playing false (self m));
                   clock_reads := clock_reads m;
                   trace := (trace m ++ [MixerStop])%list |}
   else stop m = Ok tt m)
  /\ stop (final (stop m)) = Ok tt (final (stop m))
  /\ forall W,
      get_current_position W (final (stop m)) = Ok Py.f0 (final (stop m)).
Proof.
  assert (S : if playing (self m)
              then stop m
                   = Ok tt {| self := set_paused false
                                        (set_playing false (self m));
                              clock_reads := clock_reads m;
                              trace := (trace m ++ [MixerStop])%list |}
              else stop m = Ok tt m).
  { unfold stop. run. destruct (playing (self m)); reflexivity. }
  split; [exact S|].
  destruct (playing (self m)) eqn:Hp; rewrite S; cbn [final].
  - split; [reflexivity|]. intros W. reflexivity.
  - split; [exact S|]. intros W. rewrite get_current_position_cases, Hp.
    reflexivity.
Qed.

(** ** What holds of the player throughout *)

Lemma player_ok_same_transport p q :
  same_transport p q -> player_ok p -> player_ok q.
Proof.
  unfold same_transport, player_ok, flags_ok.
  intros (T1 & T2 & T3 & T4 & T5 & T6 & T7 & T8 & T9) (F & V & Z & C).
  rewrite <- T1, <- T2, <- T3, <- T4, <- T9. auto.
Qed.

Lemma player_ok_after_display position m :
  player_ok (self m) ->
  player_ok (self (final (display_progress_bar position m))).
Proof.
  apply player_ok_same_transport, display_progress_bar_frame.
Qed.

Ltac player_ok_finish V :=
  unfold player_ok, flags_ok; proj_simpl;
  repeat split; auto; try apply V; try discriminate;
  try (intros; congruence).

Lemma player_ok_init : player_ok (self MusicPlayer_init).
Proof.
  unfold player_ok, flags_ok, volume_in_range. cbn.
  repeat split; try reflexivity; discriminate.
Qed.

Lemma adjust_volume_tail W up m :
  exists position k,
    adjust_volume W up m
    = display_progress_bar position
        {| self := set_current_volume
                     (next_volume up (current_volume (self m))) (self m);
           clock_reads := k;
           trace := (trace m
                     ++ [MixerSetVolume
                           (next_volume up (current_volume (self m)))])%list |}.
Proof.
  unfold adjust_volume, get_current_position. run. proj_simpl.
  destruct (playing (self m)); proj_simpl;
    [destruct (paused (self m)); proj_simpl|];
    do 2 eexists; reflexivity.
Qed.

Lemma pause_idle W m : playing (self m) = false -> pause W m = Ok tt m.
Proof. intros H. unfold pause. run. rewrite H. reflexivity. Qed.

Lemma player_ok_pause W m :
  player_ok (self m) -> player_ok (self (final (pause W m))).
Proof.
  intros H. destruct (playing (self m)) eqn:Hp;
    [destruct (paused (self m)) eqn:Hq|].
  - rewrite (pause_resuming W m Hp Hq). apply player_ok_after_display.
    destruct H as (F & V & Z & C). player_ok_finish V.
  - rewrite (pause_pausing W m Hp Hq). apply player_ok_after_display.
    destruct H as (F & V & Z & C). player_ok_finish V.
  - rewrite (pause_idle W m Hp). exact H.
Qed.

Lemma player_ok_stop m : player_ok (self m) -> player_ok (self (final (stop m))).
Proof.
  intros H. unfold stop. run. destruct (playing (self m)) eqn:Hp; [|exact H].
  destruct H as (F & V & Z & C). player_ok_finish V.
Qed.

Lemma player_ok_adjust_volume W up m :
  player_ok (self m) -> player_ok (self (final (adjust_volume W up m))).
Proof.
  intros (F & V & Z & C).
  destruct (adjust_volume_tail W up m) as (position & k & ->).
  apply player_ok_after_display. unfold player_ok, flags_ok. proj_simpl.
  split; [exact F|]. split; [now apply next_volume_in_range|].
  split; assumption.
Qed.

Lemma player_ok_play_file W path m :
  player_ok (self m) -> player_ok (self (final (play_file W path m))).
Proof.
  intros (F & V & Z & C).
  destruct (file_raises_or_not W path) as [[msg R]|R];
    [rewrite (play_file_file_error W path msg m R); cbn [final];
     exact (conj F (conj V (conj Z C)))|].
  pose proof (play_file_cases W path m R) as P.
  destruct (load_error W path); [|destruct (play_error W path)]; rewrite P.
  - player_ok_finish V.
  - player_ok_finish V.
  - apply player_ok_after_display. unfold started. player_ok_finish V.
Qed.

Lemma player_ok_step W m m' :
  step W m m' -> player_ok (self m) -> player_ok (self m').
Proof.
  intros S; destruct S; intros OK.
  - now apply player_ok_play_file.
  - now apply player_ok_pause.
  - now apply player_ok_stop.
  - now apply player_ok_adjust_volume.
  - now rewrite get_current_position_state.
  - eapply player_ok_same_transport; [|exact OK].
    apply update_progress_bar_turn_transport.
Qed.

Lemma reachable_player_ok W m : reachable W m -> player_ok (self m).
Proof.
  induction 1 as [|m m' _ IH S]; [apply player_ok_init|].
  eapply player_ok_step; eauto.
Qed.

(** X7: in every state reached from construction by calls to
    [play_file], [pause], [stop], [adjust_volume], by position queries
    and by turns of the progress thread, the volume is in [0.0, 1.0] and
    a playing player has a current track. *)
Theorem reachable_volume_and_track W m :
  reachable W m ->
  volume_in_range (current_volume (self m))
  /\ (playing (self m) = true -> current_track (self m) <> None).
Proof.
  intros R. destruct (reachable_player_ok W m R) as (_ & V & _ & C).
  split; assumption.
Qed.

Lemma reachable_volume_and_track_witness :
  reachable sample_world sample_paused
  /\ volume_in_range (current_volume (self sample_paused))
  /\ current_track (self sample_paused) <> None.
Proof.
  assert (R : reachable sample_world sample_paused).
  { apply reachable_step with (m := sample_playing).
    - apply reachable_step with (m := MusicPlayer_init).
      + apply reachable_init.
      + apply step_play_file.
    - apply step_pause. }
  split; [exact R|].
  destruct (reachable_volume_and_track sample_world sample_paused R)
    as [V C].
  split; [exact V|]. apply C. vm_compute. reflexivity.
Defined.

(** ** The frame of a pause *)

(** X8: when a reachable player that is playing a track of positive,
    printable duration is paused, the call returns normally and the
    frame it prints shows 0 percent, the time 0:00:00 and the head of
    the bar in the first cell, whatever the clock reads; the position
    recorded for the pause is 0, and so is the answer to every position
    query made while paused. *)
Theorem pause_frame_shows_zero W m total :
  reachable W m ->
  playing (self m) = true ->
  paused (self m) = false ->
  (0 <? duration (self m))%float = true ->
  format_time (duration (self m)) = inr total ->
  exists path volume m1,
    current_track (self m) = Some path
    /\ pause W m = Ok tt m1
    /\ trace m1
       = (trace m
          ++ [MixerPause; frame_prefix (first_display (self m));
              TrackName (Py.basename path);
              ProgressLine
                {| pt_percentage := 0;
                   pt_bar := head_glyph :: repeat empty_glyph 29;
                   pt_current_time := "0:00:00";
                   pt_total_time := total;
                   pt_volume := volume;
                   pt_paused := true |};
              Echo ""])%list
    /\ pause_start (self m1) = clock W (clock_reads m)
    /\ pause_position (self m1) = Py.f0
    /\ get_current_position W m1 = Ok Py.f0 m1.
Proof.
  intros R Hp Hq Hd Hf.
  destruct (reachable_player_ok W m R) as (F & V & Z & C).
  destruct (current_track (self m)) as [path|] eqn:Ht;
    [|exfalso; now apply C].
  rewrite (pause_pausing W m Hp Hq), Z.
  set (m0 := {| self := set_pause_position Py.f0
                          (set_pause_start (clock W (clock_reads m))
                             (set_paused true (self m)));
                clock_reads := S (clock_reads m);
                trace := (trace m ++ [MixerPause])%list |}).
  destruct (display_progress_bar_returns Py.f0 m0 path "0:00:00" total)
    as (percentage & filled & volume & Ep & Ef & _ & E);
    try reflexivity; try assumption.
  cbn [m0 self duration set_pause_position set_pause_start set_paused]
    in Ep, Ef.
  rewrite (zero_quotient _ Hd) in Ep, Ef.
  assert (percentage = 0) by (vm_compute in Ep; congruence).
  assert (filled = 0) by (vm_compute in Ef; congruence).
  subst. exists path, volume. eexists. split; [reflexivity|].
  split; [exact E|]. proj_simpl. unfold m0. proj_simpl.
  rewrite <- !app_assoc.
  split; [reflexivity|]. split; [reflexivity|]. split; [reflexivity|].
  rewrite get_current_position_cases. proj_simpl. rewrite Hp.
  reflexivity.
Qed.

Lemma pause_frame_shows_zero_witness :
  reachable sample_world sample_playing
  /\ playing (self sample_playing) = true
  /\ exists m,
      get_current_position sample_world sample_playing = Ok 10%float m
      /\ get_current_position sample_world sample_paused
         = Ok 0%float sample_paused.
Proof.
  assert (R : reachable sample_world sample_playing).
  { apply reachable_step with (m := MusicPlayer_init).
    - apply reachable_init.
    - apply step_play_file. }
  assert (Hp : playing (self sample_playing) = true)
    by (vm_compute; reflexivity).
  split; [exact R|]. split; [exact Hp|].
  destruct (pause_frame_shows_zero sample_world sample_playing "0:01:40" R Hp)
    as (path & volume & m1 & _ & P & _ & _ & _ & Q);
    try (vm_compute; reflexivity).
  eexists. split; [vm_compute; reflexivity|].
  unfold sample_paused. rewrite P. exact Q.
Defined.

(** ** Sessions *)

Lemma quit_final m :
  (stop ;; emit (Echo (String "010" "Quitting...")) ;;
   (raise (Py.SystemExit 0) : M unit))%py m
  = Raise (Py.SystemExit 0)
      {| self := self (final (stop m));
         clock_reads := clock_reads (final (stop m));
         trace := (trace (final (stop m))
                   ++ [Echo (String "010" "Quitting...")])%list |}.
Proof. unfold bind at 1. rewrite stop_returns. reflexivity. Qed.

Ltac split_key :=
  match goal with
  | |- context [if ?b then _ else _] => destruct b eqn:?
  end.

Section SessionInvariant.

Variable W : world.
Variable P : machine -> Prop.
Variable allowed : string -> Prop.

Hypothesis P_pause : forall m, P m -> P (final (pause W m)).
Hypothesis P_adjust_volume :
  forall up m, P m -> P (final (adjust_volume W up m)).
Hypothesis P_stop : forall m, P m -> P (final (stop m)).
Hypothesis P_play_file :
  forall path m, allowed path -> P m -> P (final (play_file W path m)).
Hypothesis P_echo : forall line m, P m -> P (final (emit (Echo line) m)).

Lemma handle_keyboard_input_stands music_files current_index keys :
  forall m,
    P m ->
    stands_in P (handle_keyboard_input W music_files current_index keys m).
Proof.
  induction keys as [|char keys IH]; intros m H; [exact H|].
  cbn [handle_keyboard_input].
  repeat split_key; try exact H; try (now apply IH).
  - pose proof (P_pause m H) as Q. destruct (pause W m); [now apply IH|exact Q].
  - pose proof (P_adjust_volume true m H) as Q.
    destruct (adjust_volume W true m); [now apply IH|exact Q].
  - pose proof (P_adjust_volume false m H) as Q.
    destruct (adjust_volume W false m); [now apply IH|exact Q].
  - rewrite quit_final. unfold stands_in, reading_state.
    apply (P_echo (String "010" "Quitting...") (final (stop m))).
    now apply P_stop.
Qed.

Lemma playlist_loop_stands fuel music_files :
  Forall allowed music_files ->
  forall i keys m,
    P m -> stands_in P (playlist_loop W fuel music_files i keys m).
Proof.
  intros A. induction fuel as [|fuel IH]; intros i keys m H; [exact I|].
  cbn [playlist_loop].
  destruct ((0 <=? i) && (i <? Z.of_nat (List.length music_files))) eqn:C;
    [|exact H].
  apply andb_prop in C. destruct C as [C1 C2].
  apply Z.leb_le in C1. apply Z.ltb_lt in C2.
  assert (Q : P (final (play_file W (nth (Z.to_nat i) music_files "") m))).
  { apply P_play_file; [|exact H].
    rewrite Forall_forall in A. apply A, nth_In. lia. }
  destruct (play_file W _ m) as [u m1|e m1]; [|exact Q].
  pose proof (handle_keyboard_input_stands (Some music_files) (Some i)
                keys m1 Q) as K.
  destruct (handle_keyboard_input W _ _ keys m1) as [a rest m2|e rest m2|m2|];
    try exact K.
  rewrite stop_returns. apply IH. now apply P_stop.
Qed.

Lemma print_controls_stands m :
  exists m', print_controls m = Ok tt m' /\ (P m -> P m').
Proof.
  unfold print_controls. eexists. split; [reflexivity|]. intros H.
  exact (P_echo " p - previous track (in directory mode)" _
           (P_echo " n - next track (in directory mode)" _
              (P_echo " q - quit" _
                 (P_echo " - - volume down" _
                    (P_echo " + - volume up" _
                       (P_echo " space - play/pause" _
                          (P_echo (String "010" "Controls:") m H))))))).
Qed.

Lemma main_stands t keys :
  P MusicPlayer_init ->
  match t with
  | IsFile path => allowed path
  | IsDir music_files => Forall allowed music_files
  end ->
  stands_in P (main W t keys).
Proof.
  intros H0 A. unfold main.
  destruct (print_controls_stands MusicPlayer_init) as (m & -> & H).
  specialize (H H0). destruct t as [path|music_files].
  - pose proof (P_play_file path m A H) as Q.
    destruct (play_file W path m) as [u m1|e m1]; [|exact Q].
    pose proof (handle_keyboard_input_stands None None keys m1 Q) as K.
    destruct (handle_keyboard_input W None None keys m1); exact K.
  - destruct music_files as [|f music_files].
    + exact (P_echo _ m H).
    + pose proof (P_echo ("Found "
                          ++ Py.str_int
                               (Z.of_nat (List.length (f :: music_files)))
                          ++ " music files")%string m H) as Q.
      cbn [emit]. cbn [final emit] in Q.
      pose proof (playlist_loop_stands (S (List.length keys))
                    (f :: music_files) A 0 keys _ Q) as K.
      destruct (playlist_loop W _ _ 0 keys _); exact K.
Qed.

End SessionInvariant.

(** X9: wherever a session stands after any keys (waiting for a key,
    returned, or ended by an exception), in file mode and in directory
    mode alike, the player is paused only if playing, its volume is in
    [0.0, 1.0], its [pause_position] is 0, and it has a current track
    if it is playing. *)
Theorem session_keeps_player_ok W t keys :
  stands_in (fun m => player_ok (self m)) (main W t keys).
Proof.
  apply main_stands with (allowed := fun _ => True).
  - apply player_ok_pause.
  - apply player_ok_adjust_volume.
  - apply player_ok_stop.
  - intros path m _. apply player_ok_play_file.
  - intros line m H. exact H.
  - apply player_ok_init.
  - destruct t; [exact I|]. apply Forall_forall. intros; exact I.
Qed.

(** ** The files a session loads *)

Lemma loaded_app a b : loaded (a ++ b) = (loaded a ++ loaded b)%list.
Proof.
  induction a as [|e a IH]; [reflexivity|].
  destruct e; cbn [loaded app]; rewrite IH; reflexivity.
Qed.

Lemma loaded_output more :
  forallb is_terminal_output more = true -> loaded more = [].
Proof.
  induction more as [|e more IH]; [reflexivity|]. cbn [forallb].
  intros H. apply andb_prop in H. destruct H as [He Hm].
  destruct e; try discriminate; cbn [loaded]; apply IH, Hm.
Qed.

Lemma loaded_after_display position m :
  loaded (trace (final (display_progress_bar position m)))
  = loaded (trace m).
Proof.
  destruct (display_progress_bar_output position m) as (more & -> & O).
  rewrite loaded_app, (loaded_output _ O). apply app_nil_r.
Qed.

Lemma loaded_after_pause W m :
  loaded (trace (final (pause W m))) = loaded (trace m).
Proof.
  destruct (playing (self m)) eqn:Hp;
    [destruct (paused (self m)) eqn:Hq|].
  - rewrite (pause_resuming W m Hp Hq), loaded_after_display.
    cbn [trace]. rewrite loaded_app. apply app_nil_r.
  - rewrite (pause_pausing W m Hp Hq), loaded_after_display.
    cbn [trace]. rewrite loaded_app. apply app_nil_r.
  - now rewrite (pause_idle W m Hp).
Qed.

Lemma loaded_after_adjust_volume W up m :
  loaded (trace (final (adjust_volume W up m))) = loaded (trace m).
Proof.
  destruct (adjust_volume_tail W up m) as (position & k & ->).
  rewrite loaded_after_display. cbn [trace]. rewrite loaded_app.
  apply app_nil_r.
Qed.

Lemma loaded_after_stop m :
  loaded (trace (final (stop m))) = loaded (trace m).
Proof.
  unfold stop. run. destruct (playing (self m)); [|reflexivity].
  cbn [final trace]. rewrite loaded_app. apply app_nil_r.
Qed.

Lemma loaded_after_play_file W path m :
  loaded (trace (final (play_file W path m))) = loaded (trace m)
  \/ loaded (trace (final (play_file W path m)))
     = (loaded (trace m) ++ [path])%list.
Proof.
  destruct (file_raises_or_not W path) as [[msg R]|R];
    [rewrite (play_file_file_error W path msg m R); now left|].
  pose proof (play_file_cases W path m R) as P.
  destruct (load_error W path); [|destruct (play_error W path)]; rewrite P.
  - left. cbn [final trace]. rewrite loaded_app. apply app_nil_r.
  - right. cbn [final trace]. rewrite !loaded_app. cbn [loaded].
    now rewrite app_nil_r.
  - right. rewrite loaded_after_display. cbn [trace].
    rewrite !loaded_app. cbn [loaded]. now rewrite app_nil_r.
Qed.

(** X10: a session only ever loads the file it was given, or files of
    the directory listing: every path passed to the mixer's [load], at
    whatever point the session stands, is one of them. *)
Theorem session_loads_listed_files W t keys :
  stands_in
    (fun m =>
       forall path,
         In path (loaded (trace m)) ->
         match t with
         | IsFile file => path = file
         | IsDir music_files => In path music_files
         end)
    (main W t keys).
Proof.
  apply main_stands
    with (allowed := fun path =>
                       match t with
                       | IsFile file => path = file
                       | IsDir music_files => In path music_files
                       end).
  - intros m H. now rewrite loaded_after_pause.
  - intros up m H. now rewrite loaded_after_adjust_volume.
  - intros m H. now rewrite loaded_after_stop.
  - intros path m A H p.
    destruct (loaded_after_play_file W path m) as [-> | ->]; [apply H|].
    intros I. apply in_app_or in I.
    destruct I as [I|[<-|[]]]; [apply H, I|exact A].
  - intros line m H. cbn [final emit trace]. rewrite loaded_app.
    cbn [loaded]. now rewrite app_nil_r.
  - intros path I. cbn in I. destruct I.
  - destruct t; [reflexivity|]. apply Forall_forall. auto.
Qed.

(** ** How a session ends *)











(** ** Keys that do nothing *)

Lemma handle_keyboard_input_ignores W music_files current_index c rest m :
  is_command_key c = false
  \/ (playlist_context music_files current_index = false
      /\ (c = "n"%char \/ c = "p"%char)) ->
  handle_keyboard_input W music_files current_index (c :: rest) m
  = handle_keyboard_input W music_files current_index rest m.
Proof.
  intros [H|[H [-> | ->]]].
  - unfold is_command_key in H.
    repeat (apply orb_false_elim in H; destruct H as [H ?]).
    cbn [handle_keyboard_input].
    repeat match goal with
           | E : Ascii.eqb c _ = false |- _ => rewrite E; clear E
           end.
    reflexivity.
  - cbn [handle_keyboard_input]. cbn [Ascii.eqb Bool.eqb andb].
    rewrite H. reflexivity.
  - cbn [handle_keyboard_input]. cbn [Ascii.eqb Bool.eqb andb].
    rewrite H. reflexivity.
Qed.

(** X12: keys other than space, [+], [-], [q], [n] and [p] are read and
    dropped, and so are [n] and [p] when there is no playlist (no list
    of files, an empty one, or no index): a run of such keys leaves the
    player, the clock and the terminal as they were, and the keys after
    it are handled as if it had not been typed. *)
Theorem ignored_keys_change_nothing W music_files current_index junk rest m :
  Forall (fun c =>
            is_command_key c = false
            \/ (playlist_context music_files current_index = false
                /\ (c = "n"%char \/ c = "p"%char)))
         junk ->
  handle_keyboard_input W music_files current_index (junk ++ rest)%list m
  = handle_keyboard_input W music_files current_index rest m
  /\ handle_keyboard_input W music_files current_index junk m = Blocked m.
Proof.
  induction 1 as [|c junk Hc _ [IH1 IH2]]; [split; reflexivity|].
  split.
  - cbn [app]. rewrite handle_keyboard_input_ignores by exact Hc. exact IH1.
  - rewrite handle_keyboard_input_ignores by exact Hc. exact IH2.
Qed.

Lemma ignored_keys_change_nothing_witness :
  Forall (fun c =>
            is_command_key c = false
            \/ (playlist_context None None = false
                /\ (c = "n"%char \/ c = "p"%char)))
         ["x"; "n"; "7"; "p"]%char
  /\ handle_keyboard_input sample_world None None
       ["x"; "n"; "7"; "p"]%char sample_playing
     = Blocked sample_playing.
Proof.
  assert (F : Forall (fun c =>
                        is_command_key c = false
                        \/ (playlist_context None None = false
                            /\ (c = "n"%char \/ c = "p"%char)))
                     ["x"; "n"; "7"; "p"]%char).
  { apply Forall_cons; [left; reflexivity|].
    apply Forall_cons; [right; split; [reflexivity|left; reflexivity]|].
    apply Forall_cons; [left; reflexivity|].
    apply Forall_cons; [right; split; [reflexivity|right; reflexivity]|].
    apply Forall_nil. }
  split; [exact F|].
  apply (ignored_keys_change_nothing sample_world None None _ [] _ F).
Defined.

(** ** Single-file mode *)

Lemma handle_keyboard_input_no_context W music_files current_index keys :
  playlist_context music_files current_index = false ->
  forall m a rest m',
    handle_keyboard_input W music_files current_index keys m
    <> Returned a rest m'.
Proof.
  intros C. induction keys as [|char keys IH]; intros m a rest m';
    [discriminate|].
  cbn [handle_keyboard_input]. rewrite C, !andb_false_r.
  repeat split_key; try apply IH; try discriminate.
  - destruct (pause W m); [apply IH|discriminate].
  - destruct (adjust_volume W true m); [apply IH|discriminate].
  - destruct (adjust_volume W false m); [apply IH|discriminate].
  - rewrite quit_final. discriminate.
Qed.

(** X13: in single-file mode there is no navigation: whatever keys are
    typed, [n] and [p] included, the keyboard loop never returns, so
    [main] never returns either; the session waits for a key or ends by
    an exception ([SystemExit] for [q]). *)
Theorem single_file_never_returns W path keys :
  (forall m a rest m',
      handle_keyboard_input W None None keys m <> Returned a rest m')
  /\ (forall u rest m', main W (IsFile path) keys <> Returned u rest m').
Proof.
  split; [now apply handle_keyboard_input_no_context|].
  intros u rest m'. unfold main.
  destruct (print_controls MusicPlayer_init); [|discriminate].
  destruct (play_file W path m); [|discriminate].
  pose proof (handle_keyboard_input_no_context W None None keys eq_refl m0)
    as K.
  destruct (handle_keyboard_input W None None keys m0); try discriminate.
  exfalso. eapply K. reflexivity.
Qed.

(** ** A turn of the progress thread *)

Lemma update_progress_bar_turn_paused W t m :
  paused (self m) = true -> update_progress_bar_turn W t m = Ok t m.
Proof.
  intros H. unfold update_progress_bar_turn. run. rewrite H. reflexivity.
Qed.

Lemma update_progress_bar_turn_playing W t m :
  playing (self m) = true -> paused (self m) = false ->
  let current_time := clock W (clock_reads m) in
  let position := (clock W (S (clock_reads m)) - start_time (self m)
                   - total_pause_time (self m))%float in
  let m0 := {| self := self m; clock_reads := S (S (clock_reads m));
               trace := trace m |} in
  update_progress_bar_turn W t m
  = if negb (position =? last_position t)%float
       && (position <=? duration (self m))%float
       && (Py.f0_1 <=? current_time - last_update t)%float
    then (display_progress_bar position ;;
          ret {| last_position := position; last_update := current_time |})%py
           m0
    else Ok t m0.
Proof.
  intros Hp Hq. unfold update_progress_bar_turn, get_current_position. run.
  proj_simpl. rewrite Hq. proj_simpl. rewrite Hp, Hq. proj_simpl.
  destruct (_ && _); reflexivity.
Qed.

(** X14: a turn of the progress thread on a playing player.  While
    paused it does nothing, not even read the clock.  Otherwise it reads
    the clock twice and prints at most one frame; if it prints anything,
    then the position (second reading, minus start time and time spent
    paused) does not exceed the duration, differs from the position it
    drew last, and at least 0.1 s separates the first reading from its
    last update; when it returns, its locals are either untouched or
    that position and that reading. *)
Theorem progress_thread_turn W t m :
  playing (self m) = true ->
  let current_time := clock W (clock_reads m) in
  let position := (clock W (S (clock_reads m)) - start_time (self m)
                   - total_pause_time (self m))%float in
  let o := update_progress_bar_turn W t m in
  (paused (self m) = true -> o = Ok t m)
  /\ (paused (self m) = false ->
      clock_reads (final o) = S (S (clock_reads m)))
  /\ (trace (final o) <> trace m ->
      paused (self m) = false
      /\ (position <=? duration (self m))%float = true
      /\ (position =? last_position t)%float = false
      /\ (Py.f0_1 <=? current_time - last_update t)%float = true)
  /\ forall t' m',
      o = Ok t' m' ->
      t' = t
      \/ t' = {| last_position := position; last_update := current_time |}.
Proof.
  intros Hp current_time position o.
  destruct (paused (self m)) eqn:Hq.
  - unfold o. rewrite (update_progress_bar_turn_paused W t m Hq).
    split; [reflexivity|]. split; [discriminate|].
    split; [intros N; now elim N|].
    intros t' m' E. inversion E. now left.
  - split; [discriminate|].
    unfold o. rewrite (update_progress_bar_turn_playing W t m Hp Hq).
    fold current_time position.
    destruct (negb (position =? last_position t)%float) eqn:C1;
      [destruct (position <=? duration (self m))%float eqn:C2;
       [destruct (Py.f0_1 <=? current_time - last_update t)%float eqn:C3|]|];
      cbn [andb];
      try (split; [reflexivity|]; split; [intros N; now elim N|];
           intros t' m' E; inversion E; now left).
    apply negb_true_iff in C1.
    unfold bind; cbv beta.
    match goal with
    | |- context [display_progress_bar ?pos ?m0] =>
        destruct (display_progress_bar_frame pos m0) as [_ K];
        destruct (display_progress_bar pos m0)
    end; cbn [final ret clock_reads] in *.
    + split; [intros _; exact K|]. split; [auto|].
      intros t' m' E. inversion E. now right.
    + split; [intros _; exact K|]. split; [auto|].
      intros t' m' E. inversion E.
Qed.

Lemma progress_thread_turn_witness :
  playing (self sample_playing) = true
  /\ exists t m',
      update_progress_bar_turn sample_world init_ticker sample_playing
      = Ok t m'
      /\ last_position t = 20%float.
Proof.
  assert (Hp : playing (self sample_playing) = true)
    by (vm_compute; reflexivity).
  split; [exact Hp|].
  destruct (progress_thread_turn sample_world init_ticker sample_playing Hp)
    as (_ & _ & _ & T).
  destruct (update_progress_bar_turn sample_world init_ticker sample_playing)
    as [t m'|e m'] eqn:E; [|vm_compute in E; discriminate].
  exists t, m'. split; [reflexivity|].
  destruct (T t m' eq_refl) as [-> | ->].
  - vm_compute in E. inversion E.
  - vm_compute. reflexivity.
Defined.

(** ** Skipping through a playlist *)

Lemma skipn_nth_cons (l : list string) (i : nat) :
  (i < List.length l)%nat ->
  skipn i l = nth i l "" :: skipn (S i) l.
Proof.
  revert i. induction l as [|x l IH]; intros [|i] H; cbn in H; try lia.
  - reflexivity.
  - cbn [skipn nth]. rewrite (IH i) by lia. reflexivity.
Qed.

Lemma play_file_started W path m d total :
  playback_error W path = None ->
  mutagen_length W path = Some d ->
  (0 <? d)%float = true ->
  format_time d = inr total ->
  volume_in_range (current_volume (self m)) ->
  exists more,
    play_file W path m
    = Ok tt
        {| self := set_first_display false
                     (started path d (clock W (clock_reads m)) (self m));
           clock_reads := S (clock_reads m);
           trace := ((trace m ++ [MixerLoad path; MixerPlay]) ++ more)%list |}
    /\ forallb is_terminal_output more = true.
Proof.
  intros He Hm Hd Ht Hv. unfold playback_error in He.
  pose proof (mutagen_length_info W path d Hm) as F. rewrite F in He.
  assert (P : forall msg, mutagen_file W path <> FileRaises msg)
    by (intros msg; rewrite F; discriminate).
  apply (play_file_cases W path m) in P.
  unfold metadata_duration in P. rewrite Hm in P.
  destruct (load_error W path); [discriminate|]. rewrite He in P.
  set (m0 := {| self := started path d (clock W (clock_reads m)) (self m);
                clock_reads := S (clock_reads m);
                trace := ((trace m ++ [MixerLoad path]) ++ [MixerPlay])%list |})
    in P.
  destruct (display_progress_bar_returns Py.f0 m0 path "0:00:00" total)
    as (percentage & filled & volume & _ & _ & _ & E);
    try reflexivity; try assumption.
  rewrite P, E. eexists. split.
  - cbn [m0 self trace clock_reads]. rewrite <- (app_assoc (trace m)).
    reflexivity.
  - reflexivity.
Qed.

Lemma stop_playing m :
  playing (self m) = true ->
  stop m = Ok tt {| self := set_paused false (set_playing false (self m));
                    clock_reads := clock_reads m;
                    trace := (trace m ++ [MixerStop])%list |}.
Proof. intros H. unfold stop. run. rewrite H. reflexivity. Qed.

Lemma skipping_turns W music_files rest :
  Forall (plays_well W) music_files ->
  forall k fuel m,
    (k <= List.length music_files)%nat ->
    (k < fuel)%nat ->
    volume_in_range (current_volume (self m)) ->
    exists m',
      playlist_loop W fuel music_files
        (Z.of_nat (List.length music_files - k))
        (repeat "n"%char k ++ rest)%list m
      = Returned (Z.of_nat (List.length music_files)) rest m'
      /\ mixer_calls (trace m')
         = (mixer_calls (trace m)
            ++ flat_map track_calls
                 (skipn (List.length music_files - k) music_files))%list
      /\ clock_reads m' = (clock_reads m + k)%nat
      /\ current_volume (self m') = current_volume (self m)
      /\ (playing (self m) = false -> playing (self m') = false).
Proof.
  intros HW. induction k as [|k IH]; intros fuel m Hk Hf Hv.
  - destruct fuel as [|fuel]; [lia|]. exists m.
    rewrite Nat.sub_0_r, skipn_all, app_nil_r, Nat.add_0_r.
    split; [apply playlist_loop_outside; lia|]. repeat split; auto.
  - destruct fuel as [|fuel]; [lia|].
    remember (List.length music_files - S k)%nat as i eqn:Ei.
    assert (Hi : (i < List.length music_files)%nat) by lia.
    assert (Hs : (List.length music_files - k)%nat = S i) by lia.
    assert (Hin : In (nth i music_files "") music_files)
      by (apply nth_In; exact Hi).
    destruct (proj1 (Forall_forall _ _) HW _ Hin)
      as (He & d & total & Hm & Hd & Ht).
    destruct (play_file_started W _ m d total He Hm Hd Ht Hv)
      as (more & P & O).
    cbn [repeat app].
    rewrite (playlist_loop_next W fuel music_files (Z.of_nat i) _ m _)
      by (rewrite ?Nat2Z.id; first [exact P|lia]).
    rewrite stop_playing by reflexivity. cbn [final self trace clock_reads].
    replace (Z.of_nat i + 1) with (Z.of_nat (List.length music_files - k))
      by lia.
    match goal with
    | |- context [playlist_loop W fuel music_files _ _ ?m2] =>
        destruct (IH fuel m2) as (m' & E & C & R & V & Q);
        [lia|lia|exact Hv|]
    end.
    exists m'. split; [exact E|].
    cbn [self trace clock_reads] in C, R, V, Q.
    split.
    { rewrite C, Hs, (skipn_nth_cons music_files i Hi).
      rewrite !mixer_calls_app, (mixer_calls_output more O).
      cbn [flat_map track_calls mixer_calls filter is_terminal_output negb
           app].
      rewrite app_nil_r, <- !app_assoc. reflexivity. }
    split; [rewrite R; lia|]. split; [exact V|].
    intros _. apply Q. reflexivity.
Qed.

(** X15: in directory mode, when the mixer accepts every listed file and
    mutagen gives each a positive duration that can be printed, pressing
    [n] once per track walks the whole playlist: [main] returns, leaving
    the keys typed after them unread; the mixer was initialised, its
    volume set to 0.5, and then each listed file, in the order of the
    listing, was loaded, started and stopped, exactly once; the clock was
    read once per track; and the player ends not playing, at volume
    0.5. *)
Theorem skipping_walks_the_playlist W music_files rest :
  music_files <> [] ->
  Forall (plays_well W) music_files ->
  exists m',
    main W (IsDir music_files)
      (repeat "n"%char (List.length music_files) ++ rest)%list
    = Returned tt rest m'
    /\ mixer_calls (trace m')
       = (MixerInit :: MixerSetVolume Py.f0_5
            :: flat_map track_calls music_files)
    /\ clock_reads m' = List.length music_files
    /\ playing (self m') = false
    /\ current_volume (self m') = Py.f0_5.
Proof.
  intros Hne HW. unfold main.
  destruct music_files as [|f files] eqn:Ef; [now elim Hne|].
  rewrite <- Ef in *. clear Hne.
  cbn [print_controls]. unfold print_controls. run.
  match goal with
  | |- context [playlist_loop W ?fuel music_files 0 ?keys ?m] =>
      destruct (skipping_turns W music_files rest HW
                  (List.length music_files) fuel m)
        as (m' & E & C & R & V & Q)
  end.
  - lia.
  - rewrite length_app, repeat_length. lia.
  - split; vm_compute; reflexivity.
  - rewrite Nat.sub_diag in E, C. change (Z.of_nat 0) with 0 in E.
    rewrite E. exists m'. split; [reflexivity|].
    split; [rewrite C; reflexivity|].
    split; [rewrite R; reflexivity|].
    split; [apply Q; reflexivity|].
    rewrite V. reflexivity.
Qed.

Lemma skipping_walks_the_playlist_witness :
  exists m',
    main sample_world (IsDir ["a.mp3"; "b.ogg"])
      ["n"; "n"; "q"]%char
    = Returned tt ["q"%char] m'
    /\ mixer_calls (trace m')
       = [MixerInit; MixerSetVolume Py.f0_5;
          MixerLoad "a.mp3"; MixerPlay; MixerStop;
          MixerLoad "b.ogg"; MixerPlay; MixerStop].
Proof.
  assert (P : forall path,
             String.eqb path "untagged.wav" = false ->
             String.eqb path "junk.mp3" = false ->
             String.eqb path "broken.ogg" = false ->
             plays_well sample_world path).
  { intros path H1 H2 H3. split.
    - unfold playback_error. cbn. rewrite H1, H2, H3. reflexivity.
    - exists 100%float, "0:01:40". unfold mutagen_length. cbn.
      rewrite H1, H2. repeat split; vm_compute; reflexivity. }
  destruct (skipping_walks_the_playlist sample_world ["a.mp3"; "b.ogg"]
              ["q"%char])
    as (m' & E & C & _).
  - discriminate.
  - repeat constructor; apply P; reflexivity.
  - exists m'. split; [exact E|exact C].
Defined.
